(** * The strux WPE web-process extension: the IPC bridge of
      [src/assets/wpe-extension-base/extension.c]

    A shallow embedding of the bridge between the scripting context of a
    web view and the backend process.  The C code keeps its state in
    process-wide globals; here they are the fields of one record
    ([Bridge]) that every function takes and returns.  What the code
    does to the backend and to the scripts that called it (requests
    written on a socket, continuations of promises called) is appended
    to a trace, so that orderings can be stated.  The two built-ins of a
    context the code calls, [JSON.parse] and [Object.defineProperty],
    are not events of the trace: the first is the function [JSON_parse]
    of the host, with the exception it may leave pending, the second
    the property assignment it makes.

    json-glib, JavaScriptCore and the socket are libraries outside the
    file: their behaviour is a parameter ([Host]). *)

From Stdlib Require Import PrimFloat FloatOps SpecFloat Uint63 ZArith Ascii String List Lia.
From stdpp Require Import base gmap strings list pretty.

Local Open Scope string_scope.
Local Open Scope list_scope.
Set Warnings "-register-all".

(** ** json-glib nodes *)

(** The [GValue] a [JSON_NODE_VALUE] node holds.  The code tests for
    [G_TYPE_STRING], [G_TYPE_DOUBLE], [G_TYPE_INT64] and [G_TYPE_BOOLEAN]
    and has an [else] for every other [GType]. *)
Inductive GValue : Type :=
| GString (s : string)
| GInt64 (i : Z)
| GDouble (d : float)
| GBoolean (b : bool)
| GOther.

Inductive JsonNode : Type :=
| JsonNodeNull
| JsonNodeValue (v : GValue)
| JsonNodeArray (elements : list JsonNode)
| JsonNodeObject (members : list (string * JsonNode)).

Inductive JsonNodeType : Type :=
| JSON_NODE_OBJECT | JSON_NODE_ARRAY | JSON_NODE_VALUE | JSON_NODE_NULL.

Definition json_node_get_node_type (n : JsonNode) : JsonNodeType :=
  match n with
  | JsonNodeNull => JSON_NODE_NULL
  | JsonNodeValue _ => JSON_NODE_VALUE
  | JsonNodeArray _ => JSON_NODE_ARRAY
  | JsonNodeObject _ => JSON_NODE_OBJECT
  end.

(** A [JsonObject*]; the C accessors return [NULL] on a node of another
    type and every later accessor then finds no member.  An iteration
    is not defined on [NULL] ([json_object_iter_init] returns without
    setting the iterator up): the responses on which [inject_bindings]
    iterates objects only are the [iterable] ones below. *)
Definition json_node_get_object (n : JsonNode) : list (string * JsonNode) :=
  match n with
  | JsonNodeObject members => members
  | _ => []
  end.

Fixpoint json_object_get_member (obj : list (string * JsonNode)) (name : string)
  : option JsonNode :=
  match obj with
  | [] => None
  | (k, v) :: rest =>
      if String.eqb k name then Some v else json_object_get_member rest name
  end.

Definition json_object_has_member (obj : list (string * JsonNode)) (name : string) : bool :=
  match json_object_get_member obj name with
  | Some _ => true
  | None => false
  end.

(** [json_object_get_string_member]: the string of a string member; the
    C function returns [NULL] otherwise, which is the empty text here.
    [NULL] only arises for a schema entry with no string [name] or
    [type] and for an [error] member that is no string. *)
Definition json_object_get_string_member (obj : list (string * JsonNode)) (name : string)
  : string :=
  match json_object_get_member obj name with
  | Some (JsonNodeValue (GString s)) => s
  | _ => ""
  end.

Definition json_object_get_object_member (obj : list (string * JsonNode)) (name : string)
  : list (string * JsonNode) :=
  match json_object_get_member obj name with
  | Some n => json_node_get_object n
  | None => []
  end.

Definition json_object_get_array_member (obj : list (string * JsonNode)) (name : string)
  : list JsonNode :=
  match json_object_get_member obj name with
  | Some (JsonNodeArray elements) => elements
  | _ => []
  end.

(** The C conversion [(double) i] of a 64-bit integer: exact up to 2^53,
    rounded to the nearest double above. *)
Definition double_of_int64 (i : Z) : float :=
  if (0 <=? i)%Z then PrimFloat.of_uint63 (Uint63.of_Z i)
  else if (i =? - 2 ^ 63)%Z
       then PrimFloat.opp (PrimFloat.mul (PrimFloat.of_uint63 (Uint63.of_Z (2 ^ 62))) 2)
       else PrimFloat.opp (PrimFloat.of_uint63 (Uint63.of_Z (- i))).

(** [json_node_get_double] on a value node. *)
Definition json_node_get_double (v : GValue) : float :=
  match v with
  | GDouble d => d
  | GInt64 i => double_of_int64 i
  | _ => 0%float
  end.

(** ** JavaScriptCore values *)

(** The functions the bridge calls or installs: the two continuations of
    the promise a stub returns, and functions of the page's scripts. *)
Inductive JSFunc : Type :=
| PromiseResolve (p : nat)
| PromiseReject (p : nat)
| ScriptFunction (f : nat).

Inductive JSCValue : Type :=
| JSUndefined
| JSNull
| JSBoolean (b : bool)
| JSNumber (d : float)
| JSString (s : string)
| JSArray (elements : list JSCValue)
| JSObject (properties : list (string * JSCValue))
| JSFunction (f : JSFunc)
| JSPromise (p : nat).

Definition jsc_value_is_string (v : JSCValue) : bool :=
  match v with JSString _ => true | _ => false end.

Definition jsc_value_is_number (v : JSCValue) : bool :=
  match v with JSNumber _ => true | _ => false end.

Definition jsc_value_is_boolean (v : JSCValue) : bool :=
  match v with JSBoolean _ => true | _ => false end.

Definition jsc_value_is_function (v : JSCValue) : bool :=
  match v with JSFunction _ => true | _ => false end.

Definition jsc_value_is_array (v : JSCValue) : bool :=
  match v with JSArray _ => true | _ => false end.

(** Arrays, functions and promises are objects of the language. *)
Definition jsc_value_is_object (v : JSCValue) : bool :=
  match v with
  | JSArray _ | JSObject _ | JSFunction _ | JSPromise _ => true
  | _ => false
  end.

(** A [JSCContext*]. *)
Definition JSCContext : Type := nat.

(** ** The state of the extension *)

Record AsyncRequest : Type := {
  req_message : string;
  req_call_id : string;
  req_resolve : JSCValue;
  req_reject : JSCValue;
  req_context : JSCContext
}.

Record PendingPromise : Type := {
  promise_resolve : JSCValue;
  promise_reject : JSCValue;
  promise_context : JSCContext
}.

Record AsyncReadContext : Type := {
  read_call_id : string
}.

(** What the bridge installs in a scripting context: the objects of the
    proxy graph, a method stub with the [user_data] it captures, the
    accessor pair of a field, a native logging function. *)
Inductive Property : Type :=
| ProxyObject
| MethodStub (user_data : string)
| FieldAccessor (field_name field_type : string)
| NativeFunction.

(** What the bridge does to the backend and to its callers. *)
Inductive Event : Type :=
| AsyncWritten (req : AsyncRequest)
    (* [req_message req] and a newline written on [async_output] *)
| SyncWritten (data : string)
    (* [data] written on [sync_output] *)
| FunctionCall (callee arg : JSCValue)
    (* [jsc_value_function_call callee arg], [callee] being the [resolve]
       or the [reject] of a request or of a pending promise *)
| ContextCleared (context : JSCContext).
    (* the window object of a new context [context] was cleared *)

Record Bridge : Type := {
  sync_connection : bool;          (* [sync_connection != NULL] *)
  sync_input : list ascii;         (* bytes the backend sends on the sync socket *)
  async_connection : bool;         (* [async_connection != NULL] *)
  async_queue : list AsyncRequest; (* [NULL] and the empty queue are both [[]] *)
  async_inflight : bool;
  async_reads : list AsyncReadContext;
    (* line reads started on [async_data_input] whose callback has not run *)
  call_counter : N;
  pending_promises : gmap string PendingPromise;
  connect_attempts : nat;          (* calls of [g_socket_client_connect] so far *)
  write_attempts : nat;            (* calls of [g_output_stream_write_all] so far *)
  js_exception : gmap nat string;  (* the pending exception of each context *)
  js_promises : nat;               (* promises created so far *)
  js_installed : list (JSCContext * list string * Property);
    (* the property assignments made on the object graphs, oldest first *)
  trace : list Event
}.

Definition set_sync_connection (b : bool) (st : Bridge) : Bridge :=
  {| sync_connection := b; sync_input := sync_input st;
     async_connection := async_connection st; async_queue := async_queue st;
     async_inflight := async_inflight st; async_reads := async_reads st;
     call_counter := call_counter st; pending_promises := pending_promises st;
     connect_attempts := connect_attempts st; write_attempts := write_attempts st;
     js_exception := js_exception st; js_promises := js_promises st;
     js_installed := js_installed st; trace := trace st |}.

Definition set_sync_input (i : list ascii) (st : Bridge) : Bridge :=
  {| sync_connection := sync_connection st; sync_input := i;
     async_connection := async_connection st; async_queue := async_queue st;
     async_inflight := async_inflight st; async_reads := async_reads st;
     call_counter := call_counter st; pending_promises := pending_promises st;
     connect_attempts := connect_attempts st; write_attempts := write_attempts st;
     js_exception := js_exception st; js_promises := js_promises st;
     js_installed := js_installed st; trace := trace st |}.

Definition set_async_connection (b : bool) (st : Bridge) : Bridge :=
  {| sync_connection := sync_connection st; sync_input := sync_input st;
     async_connection := b; async_queue := async_queue st;
     async_inflight := async_inflight st; async_reads := async_reads st;
     call_counter := call_counter st; pending_promises := pending_promises st;
     connect_attempts := connect_attempts st; write_attempts := write_attempts st;
     js_exception := js_exception st; js_promises := js_promises st;
     js_installed := js_installed st; trace := trace st |}.

Definition set_async_queue (q : list AsyncRequest) (st : Bridge) : Bridge :=
  {| sync_connection := sync_connection st; sync_input := sync_input st;
     async_connection := async_connection st; async_queue := q;
     async_inflight := async_inflight st; async_reads := async_reads st;
     call_counter := call_counter st; pending_promises := pending_promises st;
     connect_attempts := connect_attempts st; write_attempts := write_attempts st;
     js_exception := js_exception st; js_promises := js_promises st;
     js_installed := js_installed st; trace := trace st |}.

Definition set_async_inflight (b : bool) (st : Bridge) : Bridge :=
  {| sync_connection := sync_connection st; sync_input := sync_input st;
     async_connection := async_connection st; async_queue := async_queue st;
     async_inflight := b; async_reads := async_reads st;
     call_counter := call_counter st; pending_promises := pending_promises st;
     connect_attempts := connect_attempts st; write_attempts := write_attempts st;
     js_exception := js_exception st; js_promises := js_promises st;
     js_installed := js_installed st; trace := trace st |}.

Definition set_async_reads (r : list AsyncReadContext) (st : Bridge) : Bridge :=
  {| sync_connection := sync_connection st; sync_input := sync_input st;
     async_connection := async_connection st; async_queue := async_queue st;
     async_inflight := async_inflight st; async_reads := r;
     call_counter := call_counter st; pending_promises := pending_promises st;
     connect_attempts := connect_attempts st; write_attempts := write_attempts st;
     js_exception := js_exception st; js_promises := js_promises st;
     js_installed := js_installed st; trace := trace st |}.

Definition set_call_counter (c : N) (st : Bridge) : Bridge :=
  {| sync_connection := sync_connection st; sync_input := sync_input st;
     async_connection := async_connection st; async_queue := async_queue st;
     async_inflight := async_inflight st; async_reads := async_reads st;
     call_counter := c; pending_promises := pending_promises st;
     connect_attempts := connect_attempts st; write_attempts := write_attempts st;
     js_exception := js_exception st; js_promises := js_promises st;
     js_installed := js_installed st; trace := trace st |}.

Definition set_pending_promises (m : gmap string PendingPromise) (st : Bridge) : Bridge :=
  {| sync_connection := sync_connection st; sync_input := sync_input st;
     async_connection := async_connection st; async_queue := async_queue st;
     async_inflight := async_inflight st; async_reads := async_reads st;
     call_counter := call_counter st; pending_promises := m;
     connect_attempts := connect_attempts st; write_attempts := write_attempts st;
     js_exception := js_exception st; js_promises := js_promises st;
     js_installed := js_installed st; trace := trace st |}.

Definition set_connect_attempts (n : nat) (st : Bridge) : Bridge :=
  {| sync_connection := sync_connection st; sync_input := sync_input st;
     async_connection := async_connection st; async_queue := async_queue st;
     async_inflight := async_inflight st; async_reads := async_reads st;
     call_counter := call_counter st; pending_promises := pending_promises st;
     connect_attempts := n; write_attempts := write_attempts st;
     js_exception := js_exception st; js_promises := js_promises st;
     js_installed := js_installed st; trace := trace st |}.

Definition set_write_attempts (n : nat) (st : Bridge) : Bridge :=
  {| sync_connection := sync_connection st; sync_input := sync_input st;
     async_connection := async_connection st; async_queue := async_queue st;
     async_inflight := async_inflight st; async_reads := async_reads st;
     call_counter := call_counter st; pending_promises := pending_promises st;
     connect_attempts := connect_attempts st; write_attempts := n;
     js_exception := js_exception st; js_promises := js_promises st;
     js_installed := js_installed st; trace := trace st |}.

Definition set_js_exception (e : gmap nat string) (st : Bridge) : Bridge :=
  {| sync_connection := sync_connection st; sync_input := sync_input st;
     async_connection := async_connection st; async_queue := async_queue st;
     async_inflight := async_inflight st; async_reads := async_reads st;
     call_counter := call_counter st; pending_promises := pending_promises st;
     connect_attempts := connect_attempts st; write_attempts := write_attempts st;
     js_exception := e; js_promises := js_promises st;
     js_installed := js_installed st; trace := trace st |}.

Definition set_js_promises (n : nat) (st : Bridge) : Bridge :=
  {| sync_connection := sync_connection st; sync_input := sync_input st;
     async_connection := async_connection st; async_queue := async_queue st;
     async_inflight := async_inflight st; async_reads := async_reads st;
     call_counter := call_counter st; pending_promises := pending_promises st;
     connect_attempts := connect_attempts st; write_attempts := write_attempts st;
     js_exception := js_exception st; js_promises := n;
     js_installed := js_installed st; trace := trace st |}.

Definition set_js_installed (l : list (JSCContext * list string * Property)) (st : Bridge)
  : Bridge :=
  {| sync_connection := sync_connection st; sync_input := sync_input st;
     async_connection := async_connection st; async_queue := async_queue st;
     async_inflight := async_inflight st; async_reads := async_reads st;
     call_counter := call_counter st; pending_promises := pending_promises st;
     connect_attempts := connect_attempts st; write_attempts := write_attempts st;
     js_exception := js_exception st; js_promises := js_promises st;
     js_installed := l; trace := trace st |}.

Definition set_trace (t : list Event) (st : Bridge) : Bridge :=
  {| sync_connection := sync_connection st; sync_input := sync_input st;
     async_connection := async_connection st; async_queue := async_queue st;
     async_inflight := async_inflight st; async_reads := async_reads st;
     call_counter := call_counter st; pending_promises := pending_promises st;
     connect_attempts := connect_attempts st; write_attempts := write_attempts st;
     js_exception := js_exception st; js_promises := js_promises st;
     js_installed := js_installed st; trace := t |}.

Definition emit (e : Event) (st : Bridge) : Bridge :=
  set_trace (trace st ++ [e]) st.

(** The state [webkit_web_extension_initialize] leaves: nothing
    connected, an empty table, the counter at 0.  [input] is what the
    backend will send on the sync socket. *)
Definition initial (input : list ascii) : Bridge :=
  {| sync_connection := false; sync_input := input;
     async_connection := false; async_queue := [];
     async_inflight := false; async_reads := [];
     call_counter := 0; pending_promises := ∅;
     connect_attempts := 0; write_attempts := 0;
     js_exception := ∅; js_promises := 0;
     js_installed := []; trace := [] |}.

(** ** The libraries and the endpoint *)

(** What json-glib, the script engine and the socket do, as far as the
    bridge depends on it. *)
Record Host : Type := {
  json_generator_to_data : JsonNode -> string;
  json_parser_load_from_data : string -> option JsonNode;
    (* [None]: the parser reports an error *)
  JSON_parse : string -> JSCValue + string;
    (* the page's [JSON.parse]: a value, or the message of the exception it throws *)
  connect_ok : nat -> bool;
    (* does the n-th [g_socket_client_connect] succeed *)
  write_ok : nat -> bool
    (* does the n-th [g_output_stream_write_all] succeed *)
}.

(** How [g_data_input_stream_read_line_finish] ends. *)
Inductive ReadResult : Type :=
| ReadLine (line : string)
| ReadEof                      (* [line == NULL], no error *)
| ReadError (message : string).

Section Extension.

Variable host : Host.

(** ** Transport Manager *)

(** [connect_sync_ipc]: a no-op once connected; a failed attempt leaves
    [sync_connection] at [NULL], so the next call tries again. *)
Definition connect_sync_ipc (st : Bridge) : bool * Bridge :=
  if sync_connection st then (true, st)
  else
    let ok := connect_ok host (connect_attempts st) in
    let st := set_connect_attempts (S (connect_attempts st)) st in
    if ok then (true, set_sync_connection true st) else (false, st).

Definition connect_async_ipc (st : Bridge) : bool * Bridge :=
  if async_connection st then (true, st)
  else
    let ok := connect_ok host (connect_attempts st) in
    let st := set_connect_attempts (S (connect_attempts st)) st in
    if ok then (true, set_async_connection true st) else (false, st).

(** One [g_output_stream_write_all]: whether it succeeded. *)
Definition g_output_stream_write_all (st : Bridge) : bool * Bridge :=
  (write_ok host (write_attempts st),
   set_write_attempts (S (write_attempts st)) st).

(** [jsc_value_function_call callee arg] on a continuation, the result
    ignored. *)
Definition jsc_value_function_call (callee arg : JSCValue) (st : Bridge) : Bridge :=
  emit (FunctionCall callee arg) st.

(** ** Async Call Queue *)

(** The body of [start_next_async_request], with [self] for the call of
    the function to itself. *)
Definition start_next_body (self : Bridge -> Bridge) (st : Bridge) : Bridge :=
  if async_inflight st then st
  else
    match async_queue st with
    | [] => st
    | req :: rest =>
        let st := set_async_inflight true (set_async_queue rest st) in
        let (connected, st) := connect_async_ipc st in
        if negb connected then
          let error_obj := JSString "Failed to connect to IPC" in
          let st := jsc_value_function_call (req_reject req) error_obj st in
          let st := set_async_inflight false st in
          self st
        else
          (* store pending promise *)
          let promise := {| promise_resolve := req_resolve req;
                            promise_reject := req_reject req;
                            promise_context := req_context req |} in
          let st := set_pending_promises
                      (<[req_call_id req := promise]> (pending_promises st)) st in
          let (written, st) := g_output_stream_write_all st in
          if negb written then
            let error_obj := JSString "Failed to write message" in
            let st := jsc_value_function_call (req_reject req) error_obj st in
            let st := set_pending_promises
                        (delete (req_call_id req) (pending_promises st)) st in
            let st := set_async_inflight false st in
            self st
          else
            let st := emit (AsyncWritten req) st in
            let ctx := {| read_call_id := req_call_id req |} in
            set_async_reads (async_reads st ++ [ctx]) st
    end.

(** The recursion of the C function pops one request per call, so it is
    at most one call deeper than the queue is long.  That
    [start_next_async_request] is the function its body describes is
    [start_next_async_request_unfold] below. *)
Fixpoint start_next_depth (depth : nat) : Bridge -> Bridge :=
  match depth with
  | O => fun st => st
  | S depth' => start_next_body (start_next_depth depth')
  end.

Definition start_next_async_request (st : Bridge) : Bridge :=
  start_next_depth (S (length (async_queue st))) st.

(** [send_ipc_message_async] *)
Definition send_ipc_message_async (message call_id : string)
    (resolve reject : JSCValue) (context : JSCContext) (st : Bridge) : Bridge :=
  let req := {| req_message := message; req_call_id := call_id;
                req_resolve := resolve; req_reject := reject;
                req_context := context |} in
  let st := set_async_queue (async_queue st ++ [req]) st in
  let should_start := negb (async_inflight st) in
  if should_start then start_next_async_request st else st.

(** ** Response Decoder *)

(** [jsc_value_function_call parse_func json_str_val] where [parse_func]
    is the [JSON.parse] of [context]: the parsed value, or, when the
    call throws, [undefined] with the exception left pending in
    [context].  The call is into the context itself and is no event of
    the trace. *)
Definition call_json_parse (context : JSCContext) (text : string) (st : Bridge)
  : JSCValue * Bridge :=
  match JSON_parse host text with
  | inl v => (v, st)
  | inr message =>
      (JSUndefined, set_js_exception (<[context := message]> (js_exception st)) st)
  end.

(** [jsc_context_throw_exception] *)
Definition jsc_context_throw_exception (context : JSCContext) (message : string)
    (st : Bridge) : Bridge :=
  set_js_exception (<[context := message]> (js_exception st)) st.

(** [jsc_context_clear_exception] *)
Definition jsc_context_clear_exception (context : JSCContext) (st : Bridge) : Bridge :=
  set_js_exception (delete context (js_exception st)) st.

(** The conversion of the [result] member in [async_read_callback]. *)
Definition async_result_value (context : JSCContext) (result_node : JsonNode)
    (st : Bridge) : JSCValue * Bridge :=
  match result_node with
  | JsonNodeValue v =>
      match v with
      | GString s => (JSString s, st)
      | GDouble _ | GInt64 _ => (JSNumber (json_node_get_double v), st)
      | GBoolean b => (JSBoolean b, st)
      | GOther => (JSNull, st)
      end
  | JsonNodeObject _ | JsonNodeArray _ =>
      let json_result_str := json_generator_to_data host result_node in
      let (result, st) := call_json_parse context json_result_str st in
      (* check for exceptions *)
      match js_exception st !! context with
      | Some _ => (JSUndefined, jsc_context_clear_exception context st)
      | None => (result, st)
      end
  | JsonNodeNull => (JSNull, st)
  end.

(** [async_read_callback]: [ctx] is the read context the read was
    started with, [res] how the read ended. *)
Definition async_read_callback (ctx : AsyncReadContext) (res : ReadResult)
    (st : Bridge) : Bridge :=
  let read_failed (message : string) :=
    match pending_promises st !! read_call_id ctx with
    | Some promise =>
        let error_obj := JSString message in
        let st := jsc_value_function_call (promise_reject promise) error_obj st in
        set_pending_promises (delete (read_call_id ctx) (pending_promises st)) st
    | None => st
    end in
  match res with
  | ReadError message => read_failed message
  | ReadEof => read_failed "Failed to read response"
  | ReadLine line =>
      let st :=
        match json_parser_load_from_data host line with
        | Some response_root =>
            let response_obj := json_node_get_object response_root in
            match pending_promises st !! read_call_id ctx with
            | None => st
            | Some promise =>
                let st :=
                  if json_object_has_member response_obj "error" then
                    let error_msg := json_object_get_string_member response_obj "error" in
                    jsc_value_function_call (promise_reject promise) (JSString error_msg) st
                  else
                    match json_object_get_member response_obj "result" with
                    | Some result_node =>
                        let (result, st) :=
                          async_result_value (promise_context promise) result_node st in
                        jsc_value_function_call (promise_resolve promise) result st
                    | None => st
                    end in
                set_pending_promises (delete (read_call_id ctx) (pending_promises st)) st
            end
        | None => st
        end in
      let st := set_async_inflight false st in
      start_next_async_request st
  end.

(** ** Sync Call Channel *)

(** The read loop of [send_ipc_message_sync]: one byte at a time up to
    the newline, each appended to the [GString] [response]; the end of
    [input] is a read that returns no byte. *)
Fixpoint read_until_newline (input : list ascii) (response : string)
  : option string * list ascii :=
  match input with
  | [] => (None, [])
  | byte :: rest =>
      if Ascii.eqb byte "010"%char then (Some response, rest)
      else read_until_newline rest (response +:+ String byte "")
  end.

(** [g_string_free (response, FALSE)]: the bytes of the [GString] as the
    [gchar*] the caller gets.  Every caller reads it as a C string
    ([json_parser_load_from_data] with length -1), that is up to the
    first NUL byte. *)
Fixpoint g_string_free (response : string) : string :=
  match response with
  | EmptyString => EmptyString
  | String byte rest =>
      if Ascii.eqb byte "000"%char then EmptyString
      else String byte (g_string_free rest)
  end.

Definition send_ipc_message_sync (message : string) (st : Bridge)
  : option string * Bridge :=
  let (connected, st) := connect_sync_ipc st in
  if negb connected then (None, st)
  else
    let msg_with_newline := message +:+ String "010"%char "" in
    let (written, st) := g_output_stream_write_all st in
    if negb written then (None, st)
    else
      let st := emit (SyncWritten msg_with_newline) st in
      let (response, rest) := read_until_newline (sync_input st) "" in
      (g_string_free <$> response, set_sync_input rest st).

(** ** Method stubs *)

(** [g_atomic_int_add (&call_counter, 1)] on a 32-bit counter: the value
    before the addition. *)
Definition next_call_id (st : Bridge) : string * Bridge :=
  (pretty (call_counter st),
   set_call_counter ((call_counter st + 1) mod 2 ^ 32)%N st).

(** How a script value is put in the [params] array. *)
Definition json_of_argument (arg : JSCValue) : JsonNode :=
  match arg with
  | JSString s => JsonNodeValue (GString s)
  | JSNumber d => JsonNodeValue (GDouble d)
  | JSBoolean b => JsonNodeValue (GBoolean b)
  | _ => JsonNodeNull
  end.

(** The envelope [js_call_go_method] builds. *)
Definition call_envelope (call_id method_name : string) (arguments : list JSCValue)
  : JsonNode :=
  JsonNodeObject
    [ ("id", JsonNodeValue (GString call_id));
      ("method", JsonNodeValue (GString method_name));
      ("params", JsonNodeArray (map json_of_argument arguments)) ].

Definition js_call_go_method (method_name : string) (arguments : list JSCValue)
    (context : JSCContext) (st : Bridge) : JSCValue * Bridge :=
  let (call_id, st) := next_call_id st in
  let json_str := json_generator_to_data host (call_envelope call_id method_name arguments) in
  (* a new promise, with its resolve and reject functions *)
  let p := js_promises st in
  let st := set_js_promises (S p) st in
  let resolve := JSFunction (PromiseResolve p) in
  let reject := JSFunction (PromiseReject p) in
  let st := send_ipc_message_async json_str call_id resolve reject context st in
  (JSPromise p, st).

(** [go_method_callback_variadic]: [user_data] is the name the stub was
    created with, [context] the context of the call. *)
Definition go_method_callback_variadic (args : list JSCValue) (user_data : string)
    (context : JSCContext) (st : Bridge) : JSCValue * Bridge :=
  js_call_go_method user_data args context st.

(** ** Field Property Proxy *)

Definition get_field_request (id field_name : string) : JsonNode :=
  JsonNodeObject
    [ ("id", JsonNodeValue (GString id));
      ("method", JsonNodeValue (GString "__getField"));
      ("params", JsonNodeArray [JsonNodeValue (GString field_name)]) ].

(** [get_field_value]; [result] is [None] where the C pointer is [NULL]. *)
Definition get_field_value (field_name : string) (context : JSCContext) (st : Bridge)
  : JSCValue * Bridge :=
  let (id, st) := next_call_id st in
  let json_str := json_generator_to_data host (get_field_request id field_name) in
  let (response_str, st) := send_ipc_message_sync json_str st in
  let (result, st) :=
    match response_str with
    | Some response_str =>
        match json_parser_load_from_data host response_str with
        | Some response_root =>
            let response_obj := json_node_get_object response_root in
            match json_object_get_member response_obj "result" with
            | Some result_node =>
                match result_node with
                | JsonNodeValue v =>
                    match v with
                    | GString s => (Some (JSString s), st)
                    | GDouble _ | GInt64 _ =>
                        (Some (JSNumber (json_node_get_double v)), st)
                    | GBoolean b => (Some (JSBoolean b), st)
                    | GOther => (Some JSNull, st)
                    end
                | JsonNodeObject _ | JsonNodeArray _ =>
                    let json_result_str := json_generator_to_data host result_node in
                    let (result, st) := call_json_parse context json_result_str st in
                    (Some result, st)
                | JsonNodeNull => (Some JSNull, st)
                end
            | None => (None, st)
            end
        | None => (None, st)
        end
    | None => (None, st)
    end in
  (match result with Some result => result | None => JSUndefined end, st).

Definition set_field_request (id field_name : string) (value : JSCValue) : JsonNode :=
  JsonNodeObject
    [ ("id", JsonNodeValue (GString id));
      ("method", JsonNodeValue (GString "__setField"));
      ("params", JsonNodeArray [JsonNodeValue (GString field_name);
                                json_of_argument value]) ].

(** [set_field_value]: the response is freed unread. *)
Definition set_field_value (field_name : string) (value : JSCValue) (st : Bridge)
  : Bridge :=
  let (id, st) := next_call_id st in
  let json_str := json_generator_to_data host (set_field_request id field_name value) in
  let (response_str, st) := send_ipc_message_sync json_str st in
  st.

(** The [user_data] of the accessors of a field with a declared type.
    (A schema entry with no string [type] member leaves [NULL] for the
    type, which the [%s] of the error message is not defined on.) *)
Record FieldUserData : Type := {
  field_name : string;
  field_type : string
}.

Definition is_numeric_type (t : string) : bool :=
  String.eqb t "int" || String.eqb t "int8" || String.eqb t "int16" ||
  String.eqb t "int32" || String.eqb t "int64" ||
  String.eqb t "uint" || String.eqb t "uint8" || String.eqb t "uint16" ||
  String.eqb t "uint32" || String.eqb t "uint64" ||
  String.eqb t "float32" || String.eqb t "float64".

(** The validation at the head of [field_setter_callback]. *)
Definition type_valid (t : string) (value : JSCValue) : bool :=
  if String.eqb t "string" then jsc_value_is_string value
  else if is_numeric_type t then jsc_value_is_number value
  else if String.eqb t "bool" then jsc_value_is_boolean value
  else jsc_value_is_object value || jsc_value_is_array value.

(** The kind the error message names. *)
Definition observed_kind (value : JSCValue) : string :=
  if jsc_value_is_string value then "string"
  else if jsc_value_is_number value then "number"
  else if jsc_value_is_boolean value then "boolean"
  else if jsc_value_is_function value then "function"
  else if jsc_value_is_array value then "array"
  else if jsc_value_is_object value then "object"
  else "unknown".

Definition type_error_message (data : FieldUserData) (value : JSCValue) : string :=
  "TypeError: Cannot assign to field '" +:+ field_name data +:+
  "': expected " +:+ field_type data +:+ " but got " +:+ observed_kind value.

(** [field_setter_callback]; [context] is the context of [value]. *)
Definition field_setter_callback (value : JSCValue) (data : FieldUserData)
    (context : JSCContext) (st : Bridge) : Bridge :=
  if negb (type_valid (field_type data) value) then
    jsc_context_throw_exception context (type_error_message data value) st
  else
    set_field_value (field_name data) value st.

(** [field_getter_callback_typed]; [context] is the current context. *)
Definition field_getter_callback_typed (data : FieldUserData) (context : JSCContext)
    (st : Bridge) : JSCValue * Bridge :=
  get_field_value (field_name data) context st.

(** ** Binding Generator *)

(** [jsc_value_object_set_property] (or [Object.defineProperty]) on the
    object graph of [context]: [path] names the property from the global
    object down.  The assignment is added to the list of the assignments
    made; what they leave in the graph is read by [lookup_property]. *)
Definition install (context : JSCContext) (path : list string) (p : Property)
    (st : Bridge) : Bridge :=
  set_js_installed (js_installed st ++ [(context, path, p)]) st.

(** [inject_field_property] on the object at [object]. *)
Definition inject_field_property (context : JSCContext) (object : list string)
    (name type : string) (st : Bridge) : Bridge :=
  install context (object ++ [name]) (FieldAccessor name type) st.

(** The loop over the [methods] array of a struct. *)
Definition inject_methods (context : JSCContext) (object : list string)
    (methods : list JsonNode) (st : Bridge) : Bridge :=
  fold_left
    (fun st method_info =>
       let method_name :=
         json_object_get_string_member (json_node_get_object method_info) "name" in
       install context (object ++ [method_name]) (MethodStub method_name) st)
    methods st.

(** The loop over the [fields] array of a struct. *)
Definition inject_fields (context : JSCContext) (object : list string)
    (fields : list JsonNode) (st : Bridge) : Bridge :=
  fold_left
    (fun st field_info =>
       let field_obj := json_node_get_object field_info in
       let name := json_object_get_string_member field_obj "name" in
       let type := json_object_get_string_member field_obj "type" in
       inject_field_property context object name type st)
    fields st.

(** The body of the loop over the structs of a package. *)
Definition inject_struct (context : JSCContext) (pkg_name : string)
    (st : Bridge) (entry : string * JsonNode) : Bridge :=
  let (struct_name, struct_node) := entry in
  let struct_data := json_node_get_object struct_node in
  let struct_js_obj := ["go"; pkg_name; struct_name] in
  let st := install context struct_js_obj ProxyObject st in
  let st :=
    if json_object_has_member struct_data "methods" then
      inject_methods context struct_js_obj
        (json_object_get_array_member struct_data "methods") st
    else st in
  if json_object_has_member struct_data "fields" then
    inject_fields context struct_js_obj
      (json_object_get_array_member struct_data "fields") st
  else st.

(** The body of the loop over the packages. *)
Definition inject_package (context : JSCContext) (st : Bridge)
    (entry : string * JsonNode) : Bridge :=
  let (pkg_name, pkg_node) := entry in
  let pkg_obj := json_node_get_object pkg_node in
  let st := install context ["go"; pkg_name] ProxyObject st in
  fold_left (inject_struct context pkg_name) pkg_obj st.

(** The loop over the methods of a namespace of [strux]: the stub gets
    the full name, the property the short one. *)
Definition inject_strux_methods (context : JSCContext) (strux_namespace : string)
    (methods : list JsonNode) (st : Bridge) : Bridge :=
  fold_left
    (fun st method_info =>
       let method_name :=
         json_object_get_string_member (json_node_get_object method_info) "name" in
       let full_method_name := "strux." +:+ strux_namespace +:+ "." +:+ method_name in
       install context ["strux"; strux_namespace; method_name]
         (MethodStub full_method_name) st)
    methods st.

Definition inject_strux_namespace (context : JSCContext) (st : Bridge)
    (entry : string * JsonNode) : Bridge :=
  let (strux_namespace, strux_namespace_node) := entry in
  let namespace_data := json_node_get_object strux_namespace_node in
  let st := install context ["strux"; strux_namespace] ProxyObject st in
  if json_object_has_member namespace_data "methods" then
    inject_strux_methods context strux_namespace
      (json_object_get_array_member namespace_data "methods") st
  else st.

(** What [inject_bindings] does with the [result] of [__getBindings]. *)
Definition inject_schema (context : JSCContext) (bindings : list (string * JsonNode))
    (st : Bridge) : Bridge :=
  let st := install context ["go"] ProxyObject st in
  let st := fold_left (inject_package context) bindings st in
  if json_object_has_member bindings "strux" then
    let strux_obj := json_object_get_object_member bindings "strux" in
    let st := install context ["strux"] ProxyObject st in
    fold_left (inject_strux_namespace context) strux_obj st
  else st.

Definition get_bindings_request : JsonNode :=
  JsonNodeObject
    [ ("id", JsonNodeValue (GString "0"));
      ("method", JsonNodeValue (GString "__getBindings"));
      ("params", JsonNodeNull) ].

Definition inject_bindings (js_context : JSCContext) (st : Bridge) : Bridge :=
  let json_str := json_generator_to_data host get_bindings_request in
  let (response_str, st) := send_ipc_message_sync json_str st in
  match response_str with
  | Some response_str =>
      match json_parser_load_from_data host response_str with
      | Some response_root =>
          let response_obj := json_node_get_object response_root in
          if json_object_has_member response_obj "result" then
            inject_schema js_context
              (json_object_get_object_member response_obj "result") st
          else st
      | None => st
      end
  | None => st
  end.

(** [inject_console_interceptors]: five native functions on the global
    object; the script that wraps [console] with them runs in the page. *)
Definition inject_console_interceptors (context : JSCContext) (st : Bridge) : Bridge :=
  let st := install context ["__nativeLog"] NativeFunction st in
  let st := install context ["__nativeWarn"] NativeFunction st in
  let st := install context ["__nativeError"] NativeFunction st in
  let st := install context ["__nativeErrorHandler"] NativeFunction st in
  install context ["__nativeUnhandledRejection"] NativeFunction st.

(** ** Lifecycle Invalidator *)

(** The head of [window_object_cleared_callback]: the table and the
    queue are emptied, no continuation is called. *)
Definition clear_async_state (js_context : JSCContext) (st : Bridge) : Bridge :=
  let st := emit (ContextCleared js_context) st in
  let st := set_pending_promises ∅ st in
  let st := set_async_queue [] st in
  set_async_inflight false st.

Definition window_object_cleared_callback (js_context : JSCContext) (st : Bridge)
  : Bridge :=
  let st := clear_async_state js_context st in
  let st := inject_console_interceptors js_context st in
  inject_bindings js_context st.

(** ** The event loop *)

(** What happens to the extension: a script calls a stub, reads or
    writes a field, the oldest started line read completes, the engine
    clears the window object of a new context. *)
Inductive Input : Type :=
| CallStub (user_data : string) (args : list JSCValue) (context : JSCContext)
| GetField (data : FieldUserData) (context : JSCContext)
| SetField (data : FieldUserData) (value : JSCValue) (context : JSCContext)
| ReadDone (res : ReadResult)
| WindowCleared (context : JSCContext).

(** The main loop runs the callback of the oldest started read; with no
    read started there is nothing to complete. *)
Definition complete_read (res : ReadResult) (st : Bridge) : Bridge :=
  match async_reads st with
  | [] => st
  | ctx :: rest => async_read_callback ctx res (set_async_reads rest st)
  end.

Definition handle (i : Input) (st : Bridge) : Bridge :=
  match i with
  | CallStub user_data args context =>
      snd (go_method_callback_variadic args user_data context st)
  | GetField data context => snd (field_getter_callback_typed data context st)
  | SetField data value context => field_setter_callback value data context st
  | ReadDone res => complete_read res st
  | WindowCleared context => window_object_cleared_callback context st
  end.

Definition run (inputs : list Input) (st : Bridge) : Bridge :=
  fold_left (fun st i => handle i st) inputs st.

(** The property a script finds at [path] in [context], from the
    assignments made, newest first: the last one set there, unless a
    new value was assigned since to one of the objects above it, which
    took everything under the old value out of the graph. *)
Fixpoint find_property (context : JSCContext) (path : list string)
    (newest_first : list (JSCContext * list string * Property)) : option Property :=
  match newest_first with
  | [] => None
  | (c, assigned, p) :: older =>
      if bool_decide (c = context) then
        if bool_decide (assigned = path) then Some p
        else if bool_decide (assigned `prefix_of` path) then None
        else find_property context path older
      else find_property context path older
  end.

Definition lookup_property (context : JSCContext) (path : list string) (st : Bridge)
  : option Property :=
  find_property context path (rev (js_installed st)).

(** A script calls the function it finds at [path]. *)
Definition call_installed (context : JSCContext) (path : list string)
    (args : list JSCValue) (st : Bridge) : Bridge :=
  match lookup_property context path st with
  | Some (MethodStub user_data) =>
      snd (go_method_callback_variadic args user_data context st)
  | _ => st
  end.

End Extension.

Arguments start_next_async_request : simpl never.

(** ** A reference host

    A host to run the bridge on: a compact JSON writer, a reader that
    recognises the lines of a given list of nodes, a [JSON.parse] that
    builds the value of the node it recognises, and an endpoint that
    is up or down. *)
Module Reference.

Definition quote : string := String "034"%char "".

Definition join (sep : string) (parts : list string) : string :=
  match parts with
  | [] => ""
  | first :: rest => fold_left (fun acc part => acc +:+ sep +:+ part) rest first
  end.

(** The decimal expansion of [m / 2 ^ k]: finite, since 2 divides 10. *)
Definition render_dyadic (m : Z) (k : N) : string :=
  let den := (2 ^ Z.of_N k)%Z in
  let int_part := (m / den)%Z in
  let frac := (((m mod den) * 5 ^ Z.of_N k))%Z in
  if (frac =? 0)%Z then pretty int_part
  else
    let digits := pretty frac in
    let zeros := N.to_nat k - String.length digits in
    pretty int_part +:+ "." +:+
    fold_right (fun _ acc => "0" +:+ acc) digits (replicate zeros tt).

Definition render_double (d : float) : string :=
  match FloatOps.Prim2SF d with
  | SpecFloat.S754_zero _ => "0"
  | SpecFloat.S754_finite sign m e =>
      (if sign then "-" else "") +:+
      (if (0 <=? e)%Z then pretty (Z.pos m * 2 ^ e)%Z
       else render_dyadic (Z.pos m) (Z.to_N (- e)))
  | SpecFloat.S754_infinity sign => if sign then "-inf" else "inf"
  | SpecFloat.S754_nan => "nan"
  end.

Definition render_value (v : GValue) : string :=
  match v with
  | GString s => quote +:+ s +:+ quote
  | GInt64 i => pretty i
  | GDouble d => render_double d
  | GBoolean b => if b then "true" else "false"
  | GOther => "null"
  end.

Fixpoint render (n : JsonNode) : string :=
  match n with
  | JsonNodeNull => "null"
  | JsonNodeValue v => render_value v
  | JsonNodeArray elements => "[" +:+ join "," (map render elements) +:+ "]"
  | JsonNodeObject members =>
      "{" +:+
      join "," (map (fun m => quote +:+ fst m +:+ quote +:+ ":" +:+ render (snd m))
                  members) +:+
      "}"
  end.

(** The node among [known] whose text [line] is. *)
Definition recognise (known : list JsonNode) (line : string) : option JsonNode :=
  find (fun n => String.eqb (render n) line) known.

(** The value [JSON.parse] builds from the text of a node. *)
Fixpoint native (n : JsonNode) : JSCValue :=
  match n with
  | JsonNodeNull => JSNull
  | JsonNodeValue (GString s) => JSString s
  | JsonNodeValue (GInt64 i) => JSNumber (double_of_int64 i)
  | JsonNodeValue (GDouble d) => JSNumber d
  | JsonNodeValue (GBoolean b) => JSBoolean b
  | JsonNodeValue GOther => JSNull
  | JsonNodeArray elements => JSArray (map native elements)
  | JsonNodeObject members => JSObject (map (fun m => (fst m, native (snd m))) members)
  end.

(** [known]: the nodes json-glib reads; [parseable]: the nodes the
    page's [JSON.parse] accepts; [up]: is the endpoint there. *)
Definition host (known parseable : list JsonNode) (up : bool) : Host :=
  {| json_generator_to_data := render;
     json_parser_load_from_data := recognise known;
     JSON_parse := fun text =>
       match recognise parseable text with
       | Some n => inl (native n)
       | None => inr "SyntaxError: JSON Parse error"
       end;
     connect_ok := fun _ => up;
     write_ok := fun _ => up |}.

(** A line of the sync socket. *)
Definition line (n : JsonNode) : list ascii :=
  list_ascii_of_string (render n +:+ String "010"%char "").

End Reference.

(** ** Runs and what is observed of them *)

#[global] Instance JSFunc_eq_dec : EqDecision JSFunc.
Proof. solve_decision. Defined.

(** [e] settles the continuation pair of [req]. *)
Definition settles (req : AsyncRequest) (e : Event) : Prop :=
  exists v, e = FunctionCall (req_resolve req) v \/ e = FunctionCall (req_reject req) v.

Section Observations.

Variable host : Host.

(** A request as [send_ipc_message_async] receives it. *)
Definition enqueue (req : AsyncRequest) (st : Bridge) : Bridge :=
  send_ipc_message_async host (req_message req) (req_call_id req)
    (req_resolve req) (req_reject req) (req_context req) st.

Definition enqueue_all (reqs : list AsyncRequest) (st : Bridge) : Bridge :=
  fold_left (fun st req => enqueue req st) reqs st.

(** The reply lines arrive one after the other. *)
Definition deliver_all (lines : list string) (st : Bridge) : Bridge :=
  fold_left (fun st line => complete_read host (ReadLine line) st) lines st.

(** A response envelope: an object with an [error] or a [result]. *)
Definition is_reply (line : string) : bool :=
  match json_parser_load_from_data host line with
  | Some root =>
      json_object_has_member (json_node_get_object root) "error" ||
      json_object_has_member (json_node_get_object root) "result"
  | None => false
  end.

(** A write on the sync socket would go through: it is connected or
    the next connect succeeds, and the next write succeeds. *)
Definition sync_channel_up (st : Bridge) : bool :=
  (sync_connection st || connect_ok host (connect_attempts st)) &&
  write_ok host (write_attempts st).

(** What the response reader does for [req] on [line]: one call that
    settles [req] when the line is a response envelope, nothing on a
    line that is not. *)
Definition answered (req : AsyncRequest) (line : string) (evs : list Event) : Prop :=
  if is_reply line then exists e, evs = [e] /\ settles req e else evs = [].

(** The events of [reqs] submitted together and of the reply [lines]
    read so far: each request is written, then answered, then the next
    is written. *)
Fixpoint serialized (reqs : list AsyncRequest) (lines : list string) (tr : list Event)
  : Prop :=
  match reqs, lines with
  | [], _ => tr = []
  | req :: _, [] => tr = [AsyncWritten req]
  | req :: rest, line :: lines' =>
      exists evs tr', tr = AsyncWritten req :: evs ++ tr' /\ answered req line evs /\
                      serialized rest lines' tr'
  end.

(** The endpoint cannot be used: it refuses every connection and none
    is open, or every write fails. *)
Definition transport_down (st : Bridge) : Prop :=
  (async_connection st = false /\ forall n, connect_ok host n = false) \/
  (forall n, write_ok host n = false).

(** The reads started before the last context reset are the oldest of
    [async_reads]; this is their number after [i], being [stale]
    before it. *)
Definition stale_after (i : Input) (st : Bridge) (stale : nat) : nat :=
  match i with
  | WindowCleared _ => length (async_reads st)
  | ReadDone _ => pred stale
  | _ => stale
  end.

(** Inputs of a run in which no read of a request written since the
    last context reset fails, and no reply line of a request written
    before a reset is read while a request written after it awaits its
    reply. *)
Definition permitted (i : Input) (st : Bridge) (stale : nat) : Prop :=
  match i with
  | ReadDone (ReadLine _) => stale = 0 \/ async_inflight st = false
  | ReadDone _ => 0 < stale
  | _ => True
  end.

Inductive quiet : Bridge -> nat -> Prop :=
| quiet_initial (input : list ascii) : quiet (initial input) 0
| quiet_step (i : Input) (st : Bridge) (stale : nat) :
    quiet st stale -> permitted i st stale ->
    quiet (handle host i st) (stale_after i st stale).

End Observations.

(** Nothing written awaits a reply and nothing is queued. *)
Definition idle (st : Bridge) : Prop :=
  async_inflight st = false /\ async_queue st = [] /\ async_reads st = [].

(** [req] is written and awaits its reply, [q] is queued behind it. *)
Definition busy (req : AsyncRequest) (q : list AsyncRequest) (st : Bridge) : Prop :=
  async_inflight st = true /\ async_queue st = q /\
  async_reads st = [{| read_call_id := req_call_id req |}] /\
  pending_promises st !! req_call_id req =
    Some {| promise_resolve := req_resolve req; promise_reject := req_reject req;
            promise_context := req_context req |} /\
  async_connection st = true.

(** [e] is the rejection of [req] for a failed connect or write. *)
Definition rejects (req : AsyncRequest) (e : Event) : Prop :=
  e = FunctionCall (req_reject req) (JSString "Failed to connect to IPC") \/
  e = FunctionCall (req_reject req) (JSString "Failed to write message").

(** Is [callee] one of the two continuations of [req]. *)
Definition is_continuation (callee : JSCValue) (req : AsyncRequest) : bool :=
  match callee, req_resolve req, req_reject req with
  | JSFunction f, JSFunction a, JSFunction b => bool_decide (f = a) || bool_decide (f = b)
  | _, _, _ => false
  end.

(** The requests written and neither settled since nor dropped by a
    cleared context, read off the trace. *)
Fixpoint outstanding_from (tr : list Event) (acc : list AsyncRequest)
  : list AsyncRequest :=
  match tr with
  | [] => acc
  | AsyncWritten req :: tr => outstanding_from tr (acc ++ [req])
  | FunctionCall callee _ :: tr =>
      outstanding_from tr (filter (fun req => is_continuation callee req = false) acc)
  | ContextCleared _ :: tr => outstanding_from tr []
  | SyncWritten _ :: tr => outstanding_from tr acc
  end.

Definition outstanding (st : Bridge) : list AsyncRequest :=
  outstanding_from (trace st) [].

Definition is_sync_write (e : Event) : Prop :=
  match e with SyncWritten _ => True | _ => False end.

(** From [st] to [st'] the async side is untouched: nothing was written
    on the async socket and no continuation was called; the events are
    writes on the sync socket. *)
Definition sync_only (st st' : Bridge) : Prop :=
  async_inflight st' = async_inflight st /\
  async_queue st' = async_queue st /\
  async_reads st' = async_reads st /\
  pending_promises st' = pending_promises st /\
  exists tr, trace st' = trace st ++ tr /\ Forall is_sync_write tr.



(** A failure with [message] reaches the scripts of [context]: as a
    pending exception, or as the argument of a call of a function. *)
Definition rejected_with (message : string) (context : JSCContext) (st : Bridge) : Prop :=
  js_exception st !! context = Some message \/
  exists callee, In (FunctionCall callee (JSString message)) (trace st).

(** The installed properties only grow from [st] to [st']. *)
Definition extends (st st' : Bridge) : Prop :=
  exists l, js_installed st' = js_installed st ++ l.

(** The read ended without a line. *)
Definition read_failed (res : ReadResult) : Prop :=
  match res with ReadLine _ => False | _ => True end.

(** [e] is neither a request written on the async socket nor a context
    reset. *)
Definition unwritten (e : Event) : Prop :=
  match e with
  | AsyncWritten _ | ContextCleared _ => False
  | _ => True
  end.

(** [req] is the last request written in [tr], and no context was
    cleared since. *)
Definition written_last (req : AsyncRequest) (tr : list Event) : Prop :=
  exists before after, tr = before ++ AsyncWritten req :: after /\ Forall unwritten after.

(** The flag is up on exactly one read started since the last context
    reset, that of the last request written; it is down on none. *)
Definition flag_counts_reads (st : Bridge) (stale : nat) : Prop :=
  (async_inflight st = true /\ length (async_reads st) = S stale /\
   exists req, drop stale (async_reads st) = [{| read_call_id := req_call_id req |}] /\
               written_last req (trace st)) \/
  (async_inflight st = false /\ length (async_reads st) = stale).

(** ** Notions for the further properties *)

Definition newline : ascii := "010"%char.

(** No byte of [bytes] is the delimiter. *)
Definition no_newline (bytes : list ascii) : Prop :=
  Forall (fun byte => byte <> newline) bytes.

Definition nul : ascii := "000"%char.

(** No byte of [bytes] ends a C string. *)
Definition no_nul (bytes : list ascii) : Prop :=
  Forall (fun byte => byte <> nul) bytes.

(** The state after [k] call ids were drawn from the counter. *)
Definition skip_ids (k : N) (st : Bridge) : Bridge :=
  N.iter k (fun st => snd (next_call_id st)) st.

(** From [st] to [st'] no connection was closed, the counter stayed a
    32-bit value and no promise was forgotten. *)
Definition steady (st st' : Bridge) : Prop :=
  Bool.le (sync_connection st) (sync_connection st') /\
  Bool.le (async_connection st) (async_connection st') /\
  ((call_counter st < 2 ^ 32)%N -> (call_counter st' < 2 ^ 32)%N) /\
  js_promises st <= js_promises st'.

(** The declared type is none of the primitive ones. *)
Definition complex_type (t : string) : Prop :=
  t <> "string" /\ is_numeric_type t = false /\ t <> "bool".

(** A property of the proxy graph of [context]: under [go] or [strux]. *)
Definition proxy_entry (context : JSCContext)
    (e : JSCContext * list string * Property) : Prop :=
  e.1.1 = context /\
  exists root rest, e.1.2 = root :: rest /\ (root = "go" \/ root = "strux").

(** [path] in the graph of [c] is not under the [go] or the [strux]
    object of [context]. *)
Definition outside_proxies (context c : JSCContext) (path : list string) : Prop :=
  c <> context \/
  match path with
  | root :: _ => root <> "go" /\ root <> "strux"
  | [] => True
  end.

Definition is_object_node (n : JsonNode) : bool :=
  match n with JsonNodeObject _ => true | _ => false end.

(** [json_object_iter_init] is given an object: the [result] member of
    the response, when there is one, is an object, and so is each of its
    members (the packages, [strux] among them).  On any other response
    the loops of [inject_bindings] run on an iterator that was never
    initialised. *)
Definition iterable (host : Host) (response : option string) : Prop :=
  match response with
  | None => True
  | Some line =>
      match json_parser_load_from_data host line with
      | None => True
      | Some root =>
          match json_object_get_member (json_node_get_object root) "result" with
          | None => True
          | Some result =>
              is_object_node result = true /\
              Forall (fun member => is_object_node member.2 = true)
                (json_node_get_object result)
          end
      end
  end.

(** From [st] to [st'] properties were installed, all of them in [P]. *)
Definition installs_only (P : JSCContext * list string * Property -> Prop)
    (st st' : Bridge) : Prop :=
  exists l, js_installed st' = js_installed st ++ l /\ Forall P l.

(** [e] is the call of a continuation of promise [p]. *)
Definition settles_promise (p : nat) (e : Event) : bool :=
  match e with
  | FunctionCall (JSFunction (PromiseResolve q)) _
  | FunctionCall (JSFunction (PromiseReject q)) _ => bool_decide (q = p)
  | _ => false
  end.

(** From [st] to [st'] the async side is untouched, no continuation was
    called and nothing was written but at most one line, on the sync
    socket; no context but [context] has another pending exception. *)
Definition sync_access (context : JSCContext) (st st' : Bridge) : Prop :=
  async_inflight st' = async_inflight st /\
  async_queue st' = async_queue st /\
  async_reads st' = async_reads st /\
  pending_promises st' = pending_promises st /\
  (exists tr, trace st' = trace st ++ tr /\ length tr <= 1 /\
              forall e, In e tr -> exists data, e = SyncWritten data) /\
  forall c, c <> context -> js_exception st' !! c = js_exception st !! c.

(** The promise a continuation belongs to. *)
Definition promise_of (v : JSCValue) : nat :=
  match v with
  | JSFunction (PromiseResolve p) | JSFunction (PromiseReject p) => p
  | _ => 0
  end.

(** [resolve] and [reject] are the two continuations of one promise. *)
Definition continuation_pair (resolve reject : JSCValue) : Prop :=
  exists p, resolve = JSFunction (PromiseResolve p) /\
            reject = JSFunction (PromiseReject p).

(** [e], when it is a call, is the call of a continuation of a promise. *)
Definition continuation_call (e : Event) : Prop :=
  match e with
  | FunctionCall callee _ =>
      exists p, callee = JSFunction (PromiseResolve p) \/
                callee = JSFunction (PromiseReject p)
  | _ => True
  end.

(** The promises whose continuations were called, in the order of the
    calls, one entry for each call. *)
Fixpoint settled (tr : list Event) : list nat :=
  match tr with
  | [] => []
  | FunctionCall callee _ :: tr => promise_of callee :: settled tr
  | _ :: tr => settled tr
  end.

Definition queued_promises (q : list AsyncRequest) : list nat :=
  (fun req => promise_of (req_resolve req)) <$> q.

Definition pending_ids (m : gmap string PendingPromise) : list nat :=
  (fun entry => promise_of (promise_resolve (snd entry))) <$> map_to_list m.

(** The promises the bridge knows of: queued, in the table, or called. *)
Definition live (st : Bridge) : list nat :=
  queued_promises (async_queue st) ++ pending_ids (pending_promises st) ++
  settled (trace st).

Definition tidy (st : Bridge) : Prop :=
  Forall (fun req => continuation_pair (req_resolve req) (req_reject req))
    (async_queue st) /\
  (forall k v, pending_promises st !! k = Some v ->
               continuation_pair (promise_resolve v) (promise_reject v)) /\
  Forall continuation_call (trace st).

(** No promise is known twice, and each was made by a stub call. *)
Definition accounted (st : Bridge) : Prop :=
  tidy st /\ NoDup (live st) /\ Forall (fun p => p < js_promises st) (live st).


(** ** Scenarios on the reference host *)
Module Scenario.

Import Reference.

Definition text (s : string) : JsonNode := JsonNodeValue (GString s).

(** One namespace, one struct, two methods and one field. *)
Definition schema : list (string * JsonNode) :=
  [ ("main",
     JsonNodeObject
       [ ("App",
          JsonNodeObject
            [ ("methods",
               JsonNodeArray [ JsonNodeObject [("name", text "Greet")];
                               JsonNodeObject [("name", text "Add")] ]);
              ("fields",
               JsonNodeArray [ JsonNodeObject [("name", text "Count");
                                               ("type", text "int32")] ]) ]) ]) ].

Definition app_methods : list JsonNode :=
  [ JsonNodeObject [("name", text "Greet")]; JsonNodeObject [("name", text "Add")] ].

Definition schema_response : JsonNode := JsonNodeObject [("result", JsonNodeObject schema)].
Definition result_42 : JsonNode := JsonNodeObject [("result", JsonNodeValue (GInt64 42))].
Definition error_boom : JsonNode := JsonNodeObject [("error", text "boom")].
Definition no_member : JsonNode := JsonNodeObject [].
Definition nested : JsonNode :=
  JsonNodeObject [("a", JsonNodeArray [JsonNodeValue (GInt64 1); JsonNodeValue (GInt64 2)])].
Definition result_nested : JsonNode := JsonNodeObject [("result", nested)].

Definition replies : list JsonNode :=
  [schema_response; result_42; error_boom; no_member; result_nested].

(** A backend that is there, and a page that parses [nested]. *)
Definition backend : Host := host replies [nested] true.

(** The same backend, and a page whose [JSON.parse] throws. *)
Definition backend_strict_page : Host := host replies [] true.

(** No backend. *)
Definition unreachable : Host := host replies [] false.

Definition request (n : nat) (id : string) : AsyncRequest :=
  {| req_message := render (call_envelope id "Greet" []);
     req_call_id := id;
     req_resolve := JSFunction (PromiseResolve n);
     req_reject := JSFunction (PromiseReject n);
     req_context := 1 |}.

Definition greet_path : list string := ["go"; "main"; "App"; "Greet"].

Definition count_field : FieldUserData := {| field_name := "Count"; field_type := "int32" |}.

(** Two requests queued with the flag down, as when the request before
    them has just been answered. *)
Definition two_queued : Bridge :=
  set_async_queue [request 0 "0"; request 1 "1"] (initial []).

End Scenario.

(** ** More scenarios *)
Module Fixtures.

Import Reference Scenario.

(** A schema with the reserved member: one namespace, one method. *)
Definition boot_methods : list JsonNode := [JsonNodeObject [("name", text "Reboot")]].

Definition boot_namespace : JsonNode :=
  JsonNodeObject [("methods", JsonNodeArray boot_methods)].

Definition strux_member : JsonNode := JsonNodeObject [("boot", boot_namespace)].

Definition strux_schema : list (string * JsonNode) := [("strux", strux_member)].

Definition app_fields : list JsonNode :=
  [JsonNodeObject [("name", text "Count"); ("type", text "int32")]].

Definition app_struct : JsonNode :=
  JsonNodeObject [("methods", JsonNodeArray app_methods);
                  ("fields", JsonNodeArray app_fields)].

Definition main_package : JsonNode := JsonNodeObject [("App", app_struct)].

(** A field of a struct type. *)
Definition config_field : FieldUserData :=
  {| field_name := "Config"; field_type := "main.Config" |}.

(** Two lines waiting on the sync socket. *)
Definition two_lines : list ascii :=
  list_ascii_of_string "ab" ++ newline :: list_ascii_of_string "cd" ++ newline :: [].

(** A line with a NUL byte in it. *)
Definition nul_line : list ascii :=
  list_ascii_of_string "ab" ++ nul :: list_ascii_of_string "xy".

End Fixtures.

(** * Properties *)

Section QueueFacts.

Variable host : Host.

(** ** The recursion of [start_next_async_request] *)

Lemma start_next_body_ext (f g : Bridge -> Bridge) (st : Bridge) :
  (forall st', length (async_queue st') < length (async_queue st) -> f st' = g st') ->
  start_next_body host f st = start_next_body host g st.
Proof.
  intros Hfg. unfold start_next_body.
  destruct (async_inflight st); [reflexivity|].
  destruct (async_queue st) as [|req rest] eqn:Hq; [reflexivity|].
  unfold connect_async_ipc, g_output_stream_write_all; cbn.
  destruct (async_connection st); cbn.
  - destruct (write_ok host (write_attempts st)); cbn; [reflexivity|].
    apply Hfg; cbn; lia.
  - destruct (connect_ok host (connect_attempts st)); cbn.
    + destruct (write_ok host (write_attempts st)); cbn; [reflexivity|].
      apply Hfg; cbn; lia.
    + apply Hfg; cbn; lia.
Qed.

Lemma start_next_depth_enough (n m : nat) (st : Bridge) :
  length (async_queue st) < n -> length (async_queue st) < m ->
  start_next_depth host n st = start_next_depth host m st.
Proof.
  revert m st. induction n as [|n IH]; intros m st Hn Hm; [lia|].
  destruct m as [|m]; [lia|]. cbn [start_next_depth].
  apply start_next_body_ext. intros st' Hlt. apply IH; lia.
Qed.

(** The model satisfies the equation the C function is written as. *)
Lemma start_next_async_request_unfold (st : Bridge) :
  start_next_async_request host st =
  start_next_body host (start_next_async_request host) st.
Proof.
  unfold start_next_async_request at 1. cbn [start_next_depth].
  apply start_next_body_ext. intros st' Hlt.
  unfold start_next_async_request. apply start_next_depth_enough; lia.
Qed.

Lemma start_next_inflight (st : Bridge) :
  async_inflight st = true -> start_next_async_request host st = st.
Proof.
  intros H. rewrite start_next_async_request_unfold. unfold start_next_body.
  now rewrite H.
Qed.

Lemma start_next_empty (st : Bridge) :
  async_queue st = [] -> start_next_async_request host st = st.
Proof.
  intros H. rewrite start_next_async_request_unfold. unfold start_next_body.
  rewrite H. now destruct (async_inflight st).
Qed.

(** The state in which the request at the head of the queue has been
    rejected for a failed connect. *)
Lemma start_next_connect_failed (st : Bridge) (req : AsyncRequest) (rest : list AsyncRequest) :
  async_inflight st = false -> async_queue st = req :: rest ->
  async_connection st = false -> connect_ok host (connect_attempts st) = false ->
  start_next_async_request host st =
  start_next_async_request host
    (set_async_inflight false
       (jsc_value_function_call (req_reject req) (JSString "Failed to connect to IPC")
          (set_connect_attempts (S (connect_attempts st))
             (set_async_inflight true (set_async_queue rest st))))).
Proof.
  intros Hi Hq Hc Hk. rewrite start_next_async_request_unfold at 1.
  unfold start_next_body. rewrite Hi, Hq.
  unfold connect_async_ipc; cbn. rewrite Hc, Hk. reflexivity.
Qed.

(** A dispatch that fails, whatever the reason, leads to a state with
    the rest of the queue, the flag down, one rejection more and no
    entry more. *)
Lemma start_next_failed_step (st : Bridge) (req : AsyncRequest) (rest : list AsyncRequest) :
  async_inflight st = false -> async_queue st = req :: rest ->
  transport_down host st ->
  exists st' e,
    start_next_async_request host st = start_next_async_request host st' /\
    async_inflight st' = false /\ async_queue st' = rest /\
    async_reads st' = async_reads st /\
    pending_promises st' ⊆ pending_promises st /\
    (async_connection st = true ->
     async_connection st' = true /\ pending_promises st' !! req_call_id req = None) /\
    trace st' = trace st ++ [e] /\ rejects req e /\
    transport_down host st'.
Proof.
  intros Hi Hq Hdown. rewrite start_next_async_request_unfold.
  unfold start_next_body. rewrite Hi, Hq.
  unfold connect_async_ipc, g_output_stream_write_all; cbn.
  assert (Hsub : forall (k : string) (v : PendingPromise) (m : gmap string PendingPromise),
             delete k (<[k:=v]> m) ⊆ m).
  { intros k v m. rewrite delete_insert_eq. apply delete_subseteq. }
  destruct Hdown as [[Hc Hall]|Hall].
  - rewrite Hc, Hall. cbn. eexists _, _. split; [reflexivity|]. cbn.
    repeat split; try reflexivity; try congruence;
      first [ left; reflexivity | left; cbn; split; [assumption | exact Hall] ].
  - destruct (async_connection st) eqn:Hc; cbn.
    + rewrite Hall. cbn. eexists _, _. split; [reflexivity|]. cbn.
      repeat split; try reflexivity; try congruence;
        first [ apply Hsub | apply lookup_delete_eq | right; reflexivity | right; exact Hall ].
    + destruct (connect_ok host (connect_attempts st)); cbn.
      * rewrite Hall. cbn. eexists _, _. split; [reflexivity|]. cbn.
        repeat split; try reflexivity; try congruence;
          first [ apply Hsub | right; reflexivity | right; exact Hall ].
      * eexists _, _. split; [reflexivity|]. cbn.
        repeat split; try reflexivity; try congruence;
          first [ left; reflexivity | right; exact Hall ].
Qed.

Lemma drain_rejects_all (q : list AsyncRequest) : forall st : Bridge,
  async_queue st = q -> async_inflight st = false -> transport_down host st ->
  let st' := start_next_async_request host st in
  async_queue st' = [] /\ async_inflight st' = false /\
  async_reads st' = async_reads st /\
  pending_promises st' ⊆ pending_promises st /\
  (async_connection st = true ->
   forall req, req ∈ q -> pending_promises st' !! req_call_id req = None) /\
  exists evs, trace st' = trace st ++ evs /\ Forall2 rejects q evs.
Proof.
  induction q as [|req rest IH]; intros st Hq Hi Hdown; cbn zeta.
  - rewrite (start_next_empty st Hq). repeat split; auto.
    + intros _ req Hin. inversion Hin.
    + exists []. split; [now rewrite app_nil_r | constructor].
  - destruct (start_next_failed_step st req rest Hi Hq Hdown)
      as (st1 & e & Heq & Hi1 & Hq1 & Hr1 & Hsub1 & Hconn1 & Ht1 & Hrej & Hdown1).
    rewrite Heq.
    destruct (IH st1 Hq1 Hi1 Hdown1) as (Hq' & Hi' & Hr' & Hsub' & Hgone' & evs & Ht' & Hall').
    repeat split; auto.
    + congruence.
    + etrans; eassumption.
    + intros Hc r Hin. destruct (Hconn1 Hc) as [Hc1 Hnone].
      apply elem_of_cons in Hin as [->|Hin].
      * eapply lookup_weaken_None; eassumption.
      * now apply Hgone'.
    + exists (e :: evs). split.
      * rewrite Ht', Ht1, <- app_assoc. reflexivity.
      * now constructor.
Qed.

(** C4.  When the endpoint cannot be used, dispatching the request at
    the head of the queue rejects its failure continuation, leaves no
    entry for it in the correlation table, clears the in-flight flag and
    goes on with the rest of the queue; so the whole queue is drained:
    each of its requests is rejected, once and in order, none stays
    queued and no read is started. *)
Theorem unreachable_transport_rejects_queue (st : Bridge) :
  async_inflight st = false -> transport_down host st ->
  (forall req rest, async_queue st = req :: rest ->
     exists st1 e,
       start_next_async_request host st = start_next_async_request host st1 /\
       trace st1 = trace st ++ [e] /\ rejects req e /\
       (async_connection st = true -> pending_promises st1 !! req_call_id req = None) /\
       pending_promises st1 ⊆ pending_promises st /\
       async_inflight st1 = false /\ async_queue st1 = rest) /\
  let st' := start_next_async_request host st in
  async_queue st' = [] /\ async_inflight st' = false /\
  async_reads st' = async_reads st /\
  pending_promises st' ⊆ pending_promises st /\
  (async_connection st = true ->
   forall req, req ∈ async_queue st -> pending_promises st' !! req_call_id req = None) /\
  exists evs, trace st' = trace st ++ evs /\ Forall2 rejects (async_queue st) evs.
Proof.
  intros Hi Hdown. split.
  - intros req rest Hq.
    destruct (start_next_failed_step st req rest Hi Hq Hdown)
      as (st1 & e & Heq & Hi1 & Hq1 & Hr1 & Hsub1 & Hconn1 & Ht1 & Hrej & Hdown1).
    exists st1, e. repeat split; auto. intros Hc. now destruct (Hconn1 Hc).
  - now apply drain_rejects_all.
Qed.

(** C10.  When the connect fails for the request at the head of the
    queue, the state in which its failure continuation has been called
    has the correlation table it had before: no entry was inserted. *)
Theorem connect_failure_leaves_table (st : Bridge) (req : AsyncRequest)
    (rest : list AsyncRequest) :
  async_inflight st = false -> async_queue st = req :: rest ->
  async_connection st = false -> connect_ok host (connect_attempts st) = false ->
  exists st',
    start_next_async_request host st = start_next_async_request host st' /\
    pending_promises st' = pending_promises st /\
    trace st' =
      trace st ++ [FunctionCall (req_reject req) (JSString "Failed to connect to IPC")] /\
    async_queue st' = rest /\ async_inflight st' = false.
Proof.
  intros Hi Hq Hc Hk. eexists. split.
  - apply (start_next_connect_failed st req rest Hi Hq Hc Hk).
  - cbn. repeat split; reflexivity.
Qed.

End QueueFacts.

Section Serialization.

Variable host : Host.
Hypothesis connect_never_fails : forall n, connect_ok host n = true.
Hypothesis write_never_fails : forall n, write_ok host n = true.

Lemma dispatch_ok (st : Bridge) (req : AsyncRequest) (q : list AsyncRequest) :
  async_inflight st = false -> async_queue st = req :: q -> async_reads st = [] ->
  busy req q (start_next_async_request host st) /\
  trace (start_next_async_request host st) = trace st ++ [AsyncWritten req].
Proof.
  intros Hi Hq Hr. rewrite start_next_async_request_unfold. unfold start_next_body.
  rewrite Hi, Hq. unfold connect_async_ipc, g_output_stream_write_all; cbn.
  destruct (async_connection st) eqn:Hc; cbn;
    rewrite ?connect_never_fails, ?write_never_fails; cbn;
    rewrite ?write_never_fails; cbn;
    (split; [|reflexivity]); unfold busy; cbn; rewrite Hr, lookup_insert_eq; auto.
Qed.

Lemma enqueue_busy (req req' : AsyncRequest) (q : list AsyncRequest) (st : Bridge) :
  busy req q st ->
  busy req (q ++ [req']) (enqueue host req' st) /\ trace (enqueue host req' st) = trace st.
Proof.
  intros (Hi & Hq & Hr & Hp & Hc). destruct req' as [m i rs rj c].
  unfold enqueue, send_ipc_message_async. cbn.
  rewrite Hi. cbn. split; [|reflexivity]. unfold busy; cbn. rewrite Hq. auto.
Qed.

Lemma enqueue_idle (req : AsyncRequest) (st : Bridge) :
  idle st ->
  busy req [] (enqueue host req st) /\
  trace (enqueue host req st) = trace st ++ [AsyncWritten req].
Proof.
  intros (Hi & Hq & Hr). destruct req as [m i rs rj c].
  unfold enqueue, send_ipc_message_async. cbn.
  rewrite Hi, Hq. cbn.
  apply (dispatch_ok (set_async_queue [Build_AsyncRequest m i rs rj c] st)); cbn; auto.
Qed.

Lemma enqueue_all_busy (reqs : list AsyncRequest) :
  forall (req : AsyncRequest) (q : list AsyncRequest) (st : Bridge),
  busy req q st ->
  busy req (q ++ reqs) (enqueue_all host reqs st) /\
  trace (enqueue_all host reqs st) = trace st.
Proof.
  induction reqs as [|r rs IH]; intros req q st Hb; cbn.
  - now rewrite app_nil_r.
  - destruct (enqueue_busy req r q st Hb) as [Hb' Ht'].
    destruct (IH req (q ++ [r]) _ Hb') as [Hb'' Ht''].
    rewrite <- app_assoc in Hb''. split; [exact Hb''|].
    etrans; eassumption.
Qed.

Lemma deliver_all_idle (lines : list string) (st : Bridge) :
  async_reads st = [] -> deliver_all host lines st = st.
Proof.
  intros Hr. induction lines as [|l ls IH]; cbn; [reflexivity|].
  unfold complete_read at 2. rewrite Hr. exact IH.
Qed.

(** The conversion of a result touches the pending exception only. *)
Lemma async_result_value_frame (context : JSCContext) (node : JsonNode) (st : Bridge) :
  exists ex, snd (async_result_value host context node st) = set_js_exception ex st.
Proof.
  assert (Hid : st = set_js_exception (js_exception st) st) by now destruct st.
  unfold async_result_value.
  destruct node as [|v|elements|members]; cbn.
  - now exists (js_exception st).
  - destruct v; now exists (js_exception st).
  - unfold call_json_parse. destruct (JSON_parse host _); cbn.
    + destruct (js_exception st !! context); cbn; eexists; [reflexivity|exact Hid].
    + rewrite lookup_insert_eq. cbn. eexists; reflexivity.
  - unfold call_json_parse. destruct (JSON_parse host _); cbn.
    + destruct (js_exception st !! context); cbn; eexists; [reflexivity|exact Hid].
    + rewrite lookup_insert_eq. cbn. eexists; reflexivity.
Qed.

(** A line read for the request in flight answers it and frees the slot. *)
Lemma line_answers (req : AsyncRequest) (q : list AsyncRequest) (line : string)
    (st : Bridge) :
  busy req q st ->
  exists evs st2,
    complete_read host (ReadLine line) st = start_next_async_request host st2 /\
    answered host req line evs /\ trace st2 = trace st ++ evs /\
    async_inflight st2 = false /\ async_queue st2 = q /\ async_reads st2 = [].
Proof.
  intros (Hi & Hq & Hr & Hp & Hc).
  unfold complete_read. rewrite Hr. unfold async_read_callback. cbn.
  unfold answered, is_reply.
  destruct (json_parser_load_from_data host line) as [root|].
  - rewrite Hp. cbn.
    destruct (json_object_has_member (json_node_get_object root) "error") eqn:Herr.
    + eexists _, _. split; [reflexivity|]. cbn.
      split; [eexists; split; [reflexivity|]; eexists; right; reflexivity|]. auto.
    + cbn [orb]. unfold json_object_has_member.
      destruct (json_object_get_member (json_node_get_object root) "result")
        as [node|].
      * destruct (async_result_value_frame (req_context req) node
                    (set_async_reads [] st)) as [ex Hex].
        destruct (async_result_value host (req_context req) node
                    (set_async_reads [] st)) as [v st1]. cbn in Hex. subst st1.
        eexists _, _. split; [reflexivity|]. cbn.
        split; [eexists; split; [reflexivity|]; eexists; left; reflexivity|]. auto.
      * exists []. eexists. split; [reflexivity|].
        cbn. rewrite app_nil_r. auto.
  - exists []. eexists. split; [reflexivity|].
    cbn. rewrite app_nil_r. auto.
Qed.

Lemma deliver_busy (req : AsyncRequest) (q : list AsyncRequest) (line : string)
    (st : Bridge) :
  busy req q st ->
  let st' := complete_read host (ReadLine line) st in
  exists evs, answered host req line evs /\
    match q with
    | [] => idle st' /\ trace st' = trace st ++ evs
    | next :: q' => busy next q' st' /\ trace st' = trace st ++ evs ++ [AsyncWritten next]
    end.
Proof.
  intros Hb. cbn zeta.
  destruct (line_answers req q line st Hb)
    as (evs & st2 & Heq & Hs & Ht & Hi & Hq & Hr).
  rewrite Heq. exists evs. split; [exact Hs|].
  destruct q as [|next q'].
  - rewrite (start_next_empty host st2 Hq). unfold idle. auto.
  - destruct (dispatch_ok st2 next q' Hi Hq Hr) as [Hb' Ht'].
    split; [exact Hb'|]. rewrite Ht', Ht, <- app_assoc. reflexivity.
Qed.

Lemma deliver_all_busy (lines : list string) :
  forall (req : AsyncRequest) (q : list AsyncRequest) (st : Bridge),
  busy req q st ->
  let st' := deliver_all host lines st in
  exists tr, trace st' = trace st ++ tr /\
    serialized host (req :: q) lines (AsyncWritten req :: tr) /\
    length (async_reads st') <= 1 /\
    async_queue st' = drop (length lines) q.
Proof.
  induction lines as [|l ls IH]; intros req q st Hb; cbn zeta.
  - exists []. cbn. destruct Hb as (Hi & Hq & Hr & _).
    rewrite app_nil_r, Hr, Hq. cbn. repeat split; auto.
  - destruct (deliver_busy req q l st Hb) as (evs & Hs & Hnext).
    change (deliver_all host (l :: ls) st)
      with (deliver_all host ls (complete_read host (ReadLine l) st)).
    destruct q as [|next q'].
    + destruct Hnext as [(Hi & Hq & Hr) Ht].
      rewrite (deliver_all_idle ls _ Hr). exists evs.
      rewrite Hr, Hq. cbn. repeat split; auto.
      exists evs, []. rewrite app_nil_r. repeat split; auto.
    + destruct Hnext as [Hb' Ht].
      destruct (IH next q' _ Hb') as (tr & Ht' & Hser & Hlen & Hq').
      exists (evs ++ AsyncWritten next :: tr). repeat split; auto.
      * rewrite Ht', Ht, <- !app_assoc. reflexivity.
      * cbn. exists evs, (AsyncWritten next :: tr). repeat split; auto.
Qed.

(** C3.  With an endpoint that never fails, after [reqs] were submitted
    together and any number of reply lines were read, the bridge has
    written the first request, and then, line after line, answered the
    request in flight (settled its continuation, when the line is a
    response envelope) before it wrote the next one, in the order of
    submission; at most one read is started at a time and the requests
    not yet written are still queued in order. *)
Theorem async_calls_serialized (st0 : Bridge) (reqs : list AsyncRequest)
    (lines : list string) :
  idle st0 ->
  let st := deliver_all host lines (enqueue_all host reqs st0) in
  exists tr, trace st = trace st0 ++ tr /\
    serialized host reqs lines tr /\
    length (async_reads st) <= 1 /\
    async_queue st = drop (S (length lines)) reqs.
Proof.
  intros Hidle. cbn zeta. destruct reqs as [|req rs].
  - cbn [enqueue_all fold_left]. destruct Hidle as (Hi & Hq & Hr).
    rewrite (deliver_all_idle lines st0 Hr). exists [].
    rewrite app_nil_r, Hr, Hq. cbn. auto.
  - change (enqueue_all host (req :: rs) st0)
      with (enqueue_all host rs (enqueue host req st0)).
    destruct (enqueue_idle req st0 Hidle) as [Hb Ht].
    destruct (enqueue_all_busy rs req [] _ Hb) as [Hb' Ht'].
    cbn [app] in Hb'.
    destruct (deliver_all_busy lines req rs _ Hb') as (tr & Htr & Hser & Hlen & Hq).
    exists (AsyncWritten req :: tr). repeat split; auto.
    rewrite Htr, Ht', Ht, <- app_assoc. reflexivity.
Qed.

End Serialization.

Section SyncFrame.

Variable host : Host.

Lemma sync_only_refl (st : Bridge) : sync_only st st.
Proof.
  unfold sync_only. repeat split; auto. exists []. now rewrite app_nil_r.
Qed.

Lemma sync_only_trans (a b c : Bridge) : sync_only a b -> sync_only b c -> sync_only a c.
Proof.
  intros (Hi & Hq & Hr & Hp & tr & Ht & Hf) (Hi' & Hq' & Hr' & Hp' & tr' & Ht' & Hf').
  unfold sync_only. repeat split; try congruence.
  exists (tr ++ tr'). split.
  - rewrite Ht', Ht, <- app_assoc. reflexivity.
  - apply Forall_app; auto.
Qed.

(** A change of fields that are neither of the async side nor the trace. *)
Lemma sync_only_fields (st st' : Bridge) :
  async_inflight st' = async_inflight st -> async_queue st' = async_queue st ->
  async_reads st' = async_reads st -> pending_promises st' = pending_promises st ->
  trace st' = trace st -> sync_only st st'.
Proof.
  intros. unfold sync_only. repeat split; auto. exists []. now rewrite app_nil_r.
Qed.

Lemma send_ipc_message_sync_frame (message : string) (st : Bridge) :
  sync_only st (snd (send_ipc_message_sync host message st)).
Proof.
  unfold send_ipc_message_sync, connect_sync_ipc, g_output_stream_write_all.
  destruct (sync_connection st); cbn.
  - destruct (write_ok host (write_attempts st)); cbn.
    + destruct (read_until_newline (sync_input st) "") as [response rest]; cbn.
      unfold sync_only; cbn. repeat split; auto. eexists; split; [reflexivity|].
      repeat constructor.
    + now apply sync_only_fields.
  - destruct (connect_ok host (connect_attempts st)); cbn.
    + destruct (write_ok host (write_attempts st)); cbn.
      * destruct (read_until_newline (sync_input st) "") as [response rest]; cbn.
        unfold sync_only; cbn. repeat split; auto. eexists; split; [reflexivity|].
        repeat constructor.
      * now apply sync_only_fields.
    + now apply sync_only_fields.
Qed.

Lemma install_frame (context : JSCContext) (path : list string) (p : Property)
    (st : Bridge) : sync_only st (install context path p st).
Proof. now apply sync_only_fields. Qed.

Lemma fold_left_frame {A : Type} (f : Bridge -> A -> Bridge) (l : list A) :
  (forall st x, sync_only st (f st x)) -> forall st, sync_only st (fold_left f l st).
Proof.
  intros Hf. induction l as [|x l IH]; intros st; cbn.
  - apply sync_only_refl.
  - eapply sync_only_trans; [apply Hf | apply IH].
Qed.

Lemma call_json_parse_frame (context : JSCContext) (text : string) (st : Bridge) :
  sync_only st (snd (call_json_parse host context text st)).
Proof.
  unfold call_json_parse. destruct (JSON_parse host text); cbn.
  - apply sync_only_refl.
  - now apply sync_only_fields.
Qed.

Lemma get_field_value_frame (name : string) (context : JSCContext) (st : Bridge) :
  sync_only st (snd (get_field_value host name context st)).
Proof.
  unfold get_field_value, next_call_id.
  set (st1 := set_call_counter _ st).
  assert (H1 : sync_only st st1) by now apply sync_only_fields.
  pose proof (send_ipc_message_sync_frame
                (json_generator_to_data host
                   (get_field_request (pretty (call_counter st)) name)) st1) as H2.
  destruct (send_ipc_message_sync host _ st1) as [response st2]. cbn in H2.
  assert (H12 : sync_only st st2) by exact (sync_only_trans _ _ _ H1 H2).
  destruct response as [response|]; [|exact H12].
  destruct (json_parser_load_from_data host response) as [root|]; [|exact H12].
  destruct (json_object_get_member (json_node_get_object root) "result")
    as [node|]; [|exact H12].
  destruct node as [|v|elements|members]; cbn; try exact H12.
  - destruct v; exact H12.
  - pose proof (call_json_parse_frame context
                  (json_generator_to_data host (JsonNodeArray elements)) st2) as H3.
    destruct (call_json_parse host context _ st2) as [r st3]. cbn in H3 |- *.
    exact (sync_only_trans _ _ _ H12 H3).
  - pose proof (call_json_parse_frame context
                  (json_generator_to_data host (JsonNodeObject members)) st2) as H3.
    destruct (call_json_parse host context _ st2) as [r st3]. cbn in H3 |- *.
    exact (sync_only_trans _ _ _ H12 H3).
Qed.

Lemma set_field_value_frame (name : string) (value : JSCValue) (st : Bridge) :
  sync_only st (set_field_value host name value st).
Proof.
  unfold set_field_value, next_call_id.
  set (st1 := set_call_counter _ st).
  assert (H1 : sync_only st st1) by now apply sync_only_fields.
  pose proof (send_ipc_message_sync_frame
                (json_generator_to_data host
                   (set_field_request (pretty (call_counter st)) name value)) st1) as H2.
  destruct (send_ipc_message_sync host _ st1) as [response st2]. cbn in H2.
  exact (sync_only_trans _ _ _ H1 H2).
Qed.

Lemma field_setter_callback_frame (value : JSCValue) (data : FieldUserData)
    (context : JSCContext) (st : Bridge) :
  sync_only st (field_setter_callback host value data context st).
Proof.
  unfold field_setter_callback.
  destruct (type_valid (field_type data) value); cbn.
  - apply set_field_value_frame.
  - now apply sync_only_fields.
Qed.

Lemma inject_schema_frame (context : JSCContext) (bindings : list (string * JsonNode))
    (st : Bridge) : sync_only st (inject_schema context bindings st).
Proof.
  assert (Hm : forall object methods st0,
             sync_only st0 (inject_methods context object methods st0)).
  { intros. apply fold_left_frame. intros. apply install_frame. }
  assert (Hf : forall object fields st0,
             sync_only st0 (inject_fields context object fields st0)).
  { intros. apply fold_left_frame. intros. apply install_frame. }
  assert (Hs : forall pkg st0 entry, sync_only st0 (inject_struct context pkg st0 entry)).
  { intros pkg st0 [struct_name struct_node]. unfold inject_struct.
    eapply sync_only_trans; [apply install_frame|].
    destruct (json_object_has_member _ "methods");
      destruct (json_object_has_member _ "fields");
      try apply sync_only_refl; auto.
    eapply sync_only_trans; [apply Hm | apply Hf]. }
  assert (Hp : forall st0 entry, sync_only st0 (inject_package context st0 entry)).
  { intros st0 [pkg_name pkg_node]. unfold inject_package.
    eapply sync_only_trans; [apply install_frame|]. apply fold_left_frame. apply Hs. }
  assert (Hn : forall st0 entry, sync_only st0 (inject_strux_namespace context st0 entry)).
  { intros st0 [ns node]. unfold inject_strux_namespace.
    destruct (json_object_has_member _ "methods"); [|apply install_frame].
    eapply sync_only_trans; [apply install_frame|].
    apply fold_left_frame. intros. apply install_frame. }
  unfold inject_schema.
  eapply sync_only_trans; [apply install_frame|].
  eapply sync_only_trans; [apply (fold_left_frame _ bindings Hp)|].
  destruct (json_object_has_member bindings "strux"); [|apply sync_only_refl].
  eapply sync_only_trans; [apply install_frame|]. apply fold_left_frame. apply Hn.
Qed.

Lemma inject_bindings_frame (context : JSCContext) (st : Bridge) :
  sync_only st (inject_bindings host context st).
Proof.
  unfold inject_bindings.
  pose proof (send_ipc_message_sync_frame
                (json_generator_to_data host get_bindings_request) st) as H.
  destruct (send_ipc_message_sync host _ st) as [response st1]. cbn in H.
  destruct response as [response|]; [|exact H].
  destruct (json_parser_load_from_data host response) as [root|]; [|exact H].
  destruct (json_object_has_member (json_node_get_object root) "result"); [|exact H].
  eapply sync_only_trans; [exact H | apply inject_schema_frame].
Qed.

Lemma inject_console_interceptors_frame (context : JSCContext) (st : Bridge) :
  sync_only st (inject_console_interceptors context st).
Proof. now apply sync_only_fields. Qed.

End SyncFrame.

Section Invariant.

Variable host : Host.

Lemma written_last_app (req : AsyncRequest) (tr evs : list Event) :
  written_last req tr -> Forall unwritten evs -> written_last req (tr ++ evs).
Proof.
  intros (before & after & -> & Hafter) Hevs. exists before, (after ++ evs). split.
  - now rewrite <- app_assoc.
  - now apply Forall_app.
Qed.

(** From a state with the flag down, [start_next_async_request] either
    writes one request and starts its read, or leaves the flag down and
    the reads as they were. *)
Lemma start_next_counts (q : list AsyncRequest) : forall st : Bridge,
  async_queue st = q -> async_inflight st = false ->
  let st' := start_next_async_request host st in
  (async_inflight st' = true /\
   exists req, async_reads st' = async_reads st ++ [{| read_call_id := req_call_id req |}] /\
               written_last req (trace st')) \/
  (async_inflight st' = false /\ async_reads st' = async_reads st).
Proof.
  cbn zeta. induction q as [|req rest IH]; intros st Hq Hi.
  - rewrite (start_next_empty host st Hq). right. auto.
  - assert (Hwritten : forall s, trace s = trace st ->
              written_last req (trace (emit (AsyncWritten req) s))).
    { intros s Hs. exists (trace s), []. split; [reflexivity | constructor]. }
    rewrite start_next_async_request_unfold. unfold start_next_body.
    rewrite Hi, Hq. unfold connect_async_ipc, g_output_stream_write_all; cbn.
    destruct (async_connection st); cbn.
    + destruct (write_ok host (write_attempts st)); cbn.
      * left. cbn. split; [reflexivity|]. exists req. split; [reflexivity|].
        exists (trace st), []. split; [reflexivity | constructor].
      * match goal with |- context [start_next_async_request host ?s] =>
          specialize (IH s eq_refl eq_refl) end. exact IH.
    + destruct (connect_ok host (connect_attempts st)); cbn.
      * destruct (write_ok host (write_attempts st)); cbn.
        -- left. cbn. split; [reflexivity|]. exists req. split; [reflexivity|].
           exists (trace st), []. split; [reflexivity | constructor].
        -- match goal with |- context [start_next_async_request host ?s] =>
             specialize (IH s eq_refl eq_refl) end. exact IH.
      * match goal with |- context [start_next_async_request host ?s] =>
          specialize (IH s eq_refl eq_refl) end. exact IH.
Qed.

(** Whatever the line is, its callback frees the slot and asks the
    queue to go on; the reads and the queue are as they were. *)
Lemma read_line_frees_slot (ctx : AsyncReadContext) (line : string) (st : Bridge) :
  exists st2,
    async_read_callback host ctx (ReadLine line) st =
      start_next_async_request host (set_async_inflight false st2) /\
    async_reads st2 = async_reads st /\ async_queue st2 = async_queue st.
Proof.
  unfold async_read_callback. eexists. split; [reflexivity|].
  destruct (json_parser_load_from_data host line) as [root|]; [|auto].
  destruct (pending_promises st !! read_call_id ctx) as [promise|]; [|auto].
  destruct (json_object_has_member (json_node_get_object root) "error"); cbn; [auto|].
  destruct (json_object_get_member (json_node_get_object root) "result")
    as [node|]; cbn; [|auto].
  destruct (async_result_value_frame host (promise_context promise) node st) as [ex Hex].
  destruct (async_result_value host (promise_context promise) node st) as [v st1].
  cbn in Hex. subst st1. cbn. auto.
Qed.

(** A read that ends without a line leaves the flag and the reads as
    they were; it writes nothing. *)
Lemma read_failure_keeps_slot (ctx : AsyncReadContext) (res : ReadResult) (st : Bridge) :
  read_failed res ->
  let st' := async_read_callback host ctx res st in
  async_inflight st' = async_inflight st /\ async_reads st' = async_reads st /\
  exists evs, trace st' = trace st ++ evs /\ Forall unwritten evs.
Proof.
  intros Hres. cbn zeta. unfold async_read_callback.
  destruct res as [line| |message]; [contradiction| |];
    (destruct (pending_promises st !! read_call_id ctx); cbn;
     [repeat split; eexists; split; [reflexivity | repeat constructor]
     |repeat split; exists []; split; [now rewrite app_nil_r | constructor]]).
Qed.

Lemma handle_counts (i : Input) (st : Bridge) (stale : nat) :
  flag_counts_reads st stale -> permitted i st stale ->
  flag_counts_reads (handle host i st) (stale_after i st stale).
Proof.
  assert (Hquiet : forall tr, Forall is_sync_write tr -> Forall unwritten tr).
  { intros tr H. eapply Forall_impl; [exact H|]. now intros []. }
  assert (Hframe : forall a b n, sync_only a b -> flag_counts_reads a n ->
                                 flag_counts_reads b n).
  { intros a b n (Hi & _ & Hr & _ & tr & Ht & Hf) H. unfold flag_counts_reads.
    rewrite Hi, Hr, Ht. destruct H as [(H1 & H2 & req & H3 & H4)|H]; [left|right; exact H].
    split; [exact H1|]. split; [exact H2|]. exists req. split; [exact H3|].
    apply written_last_app; auto. }
  assert (Hstart : forall s n, async_inflight s = false -> length (async_reads s) = n ->
            flag_counts_reads (start_next_async_request host s) n).
  { intros s n Hi Hn.
    destruct (start_next_counts (async_queue s) s eq_refl Hi)
      as [(Hi' & req & Hr' & Hw)|(Hi' & Hr')].
    - left. split; [exact Hi'|]. rewrite Hr', length_app. cbn.
      split; [lia|]. exists req. split; [|exact Hw].
      rewrite drop_app_length' by (symmetry; exact Hn). reflexivity.
    - right. rewrite Hr'. auto. }
  intros Hinv Hperm. destruct i as [u args c|data c|data v c|res|c];
    cbn [handle stale_after].
  - unfold go_method_callback_variadic, js_call_go_method, next_call_id,
      send_ipc_message_async. cbn.
    destruct Hinv as [(Hi & Hr & req & Hd & Hw)|[Hi Hr]]; rewrite Hi; cbn.
    + left. cbn. split; [exact Hi|]. split; [exact Hr|]. exists req. auto.
    + apply Hstart; cbn; auto.
  - apply (Hframe st); [|exact Hinv]. apply get_field_value_frame.
  - apply (Hframe st); [|exact Hinv]. apply field_setter_callback_frame.
  - unfold complete_read. unfold flag_counts_reads in Hinv.
    destruct (async_reads st) as [|ctx rest] eqn:Hreads.
    + (* nothing to complete *)
      destruct Hinv as [(_ & Hr & _)|[Hi Hr]]; cbn in Hr; [discriminate Hr|].
      subst stale. right. rewrite Hreads. auto.
    + destruct res as [line| |message].
      * (* a line: the slot is freed and the queue goes on *)
        destruct (read_line_frees_slot ctx line (set_async_reads rest st))
          as (st2 & Heq & Hr2 & Hq2).
        rewrite Heq. apply Hstart; [reflexivity|]. cbn. rewrite Hr2. cbn.
        destruct Hinv as [(Hi & Hr & _)|[Hi Hr]]; cbn in Hr.
        -- destruct Hperm as [->|Hdown]; [|congruence]. cbn. lia.
        -- subst stale. reflexivity.
      * cbn in Hperm.
        destruct (read_failure_keeps_slot ctx ReadEof (set_async_reads rest st) I)
          as (Hi' & Hr' & evs & Ht' & Hevs).
        unfold flag_counts_reads. rewrite Hi', Hr', Ht'. cbn.
        destruct stale as [|stale]; [lia|]. cbn.
        destruct Hinv as [(Hi & Hr & req & Hd & Hw)|[Hi Hr]]; cbn in Hr; try cbn in Hd.
        -- left. split; [exact Hi|]. split; [lia|]. exists req. split; [exact Hd|].
           apply written_last_app; auto.
        -- right. split; [exact Hi | lia].
      * cbn in Hperm.
        destruct (read_failure_keeps_slot ctx (ReadError message)
                    (set_async_reads rest st) I)
          as (Hi' & Hr' & evs & Ht' & Hevs).
        unfold flag_counts_reads. rewrite Hi', Hr', Ht'. cbn.
        destruct stale as [|stale]; [lia|]. cbn.
        destruct Hinv as [(Hi & Hr & req & Hd & Hw)|[Hi Hr]]; cbn in Hr; try cbn in Hd.
        -- left. split; [exact Hi|]. split; [lia|]. exists req. split; [exact Hd|].
           apply written_last_app; auto.
        -- right. split; [exact Hi | lia].
  - unfold window_object_cleared_callback.
    assert (Hc : flag_counts_reads (clear_async_state c st) (length (async_reads st)))
      by (right; cbn; auto).
    revert Hc. apply Hframe.
    eapply sync_only_trans;
      [apply inject_console_interceptors_frame | apply inject_bindings_frame].
Qed.

(** C5, as amended.  In every state of a run in which no read of a
    request written since the last context reset fails, and no reply
    line of a request written before a reset is read while a request
    written after it awaits its reply, the in-flight flag is up exactly
    when one request has been written since the last reset whose reply
    line the response reader has not yet taken (it is the last request
    written); otherwise there is none.  [stale] counts the reads
    started before the last reset: a reset cancels none of them. *)
Theorem inflight_iff_one_reply_awaited (st : Bridge) (stale : nat) :
  quiet host st stale ->
  let awaited := drop stale (async_reads st) in
  (async_inflight st = true <-> length awaited = 1) /\
  (async_inflight st = false <-> awaited = []) /\
  length (async_reads st) = stale + length awaited /\
  (async_inflight st = true ->
   exists req, awaited = [{| read_call_id := req_call_id req |}] /\
               written_last req (trace st)).
Proof.
  intros Hq. cbn zeta.
  assert (Hinv : flag_counts_reads st stale).
  { induction Hq as [input|i st stale Hq IH Hperm].
    - right. auto.
    - now apply handle_counts. }
  destruct Hinv as [(Hi & Hr & req & Hd & Hw)|[Hi Hr]].
  - rewrite Hi, Hd. cbn. repeat split; intros; try congruence; try lia.
    exists req. auto.
  - rewrite Hi. rewrite drop_ge by lia. cbn.
    repeat split; intros; try congruence; lia.
Qed.

(** C9.  When the window object of a new context is cleared, the
    correlation table and the queue are emptied and the in-flight flag
    is reset, with no continuation called, and the bindings are
    installed from the state so cleared; installing them leaves the
    table and the queue empty and the flag down. *)
Theorem context_reset_discards_async_state (js_context : JSCContext) (st : Bridge) :
  let cleared := clear_async_state js_context st in
  let st' := window_object_cleared_callback host js_context st in
  (pending_promises cleared = ∅ /\ async_queue cleared = [] /\
   async_inflight cleared = false /\
   trace cleared = trace st ++ [ContextCleared js_context]) /\
  st' = inject_bindings host js_context
          (inject_console_interceptors js_context cleared) /\
  pending_promises st' = ∅ /\ async_queue st' = [] /\ async_inflight st' = false /\
  exists tr, trace st' = trace st ++ ContextCleared js_context :: tr /\
             Forall is_sync_write tr.
Proof.
  cbn zeta. split; [cbn; auto|]. split; [reflexivity|].
  unfold window_object_cleared_callback.
  assert (H : sync_only (clear_async_state js_context st)
                (inject_bindings host js_context
                   (inject_console_interceptors js_context
                      (clear_async_state js_context st)))).
  { eapply sync_only_trans;
      [apply inject_console_interceptors_frame | apply inject_bindings_frame]. }
  destruct H as (Hi & Hq & _ & Hp & tr & Ht & Hf).
  rewrite Hi, Hq, Hp, Ht. cbn. repeat split; auto.
  exists tr. split; [|exact Hf]. rewrite <- app_assoc. reflexivity.
Qed.

(** C2, where the code departs from it.  When the read ends without a
    line, the callback returns with the in-flight flag and the queue as
    they were; with the flag up, whatever is submitted afterwards is
    queued and nothing is written. *)
Theorem read_failure_stalls_queue (ctx : AsyncReadContext) (res : ReadResult)
    (st : Bridge) (reqs : list AsyncRequest) :
  read_failed res -> async_inflight st = true ->
  let st1 := async_read_callback host ctx res st in
  let st2 := enqueue_all host reqs st1 in
  async_inflight st1 = true /\ async_queue st1 = async_queue st /\
  async_inflight st2 = true /\ async_queue st2 = async_queue st ++ reqs /\
  trace st2 = trace st1.
Proof.
  intros Hres Hi. cbn zeta.
  assert (H1 : async_inflight (async_read_callback host ctx res st) = true /\
               async_queue (async_read_callback host ctx res st) = async_queue st).
  { unfold async_read_callback.
    destruct res as [line| |message]; [contradiction| |];
      destruct (pending_promises st !! read_call_id ctx); cbn; auto. }
  destruct H1 as [Hi1 Hq1]. split; [exact Hi1|]. split; [exact Hq1|].
  rewrite <- Hq1. clear Hq1 Hi Hres.
  generalize dependent (async_read_callback host ctx res st). clear st.
  induction reqs as [|req rs IH]; intros st Hi; cbn.
  - now rewrite app_nil_r.
  - assert (Hstep : async_inflight (enqueue host req st) = true /\
                    async_queue (enqueue host req st) = async_queue st ++ [req] /\
                    trace (enqueue host req st) = trace st).
    { destruct req as [m i rs' rj c]. unfold enqueue, send_ipc_message_async. cbn.
      rewrite Hi. cbn. auto. }
    destruct Hstep as (Hi' & Hq' & Ht').
    destruct (IH _ Hi') as (Hi'' & Hq'' & Ht'').
    fold (enqueue_all host rs (enqueue host req st)).
    rewrite Hq', <- app_assoc in Hq''. cbn in Hq''. rewrite Ht' in Ht''. auto.
Qed.

End Invariant.


Section Fields.

Variable host : Host.



(** One sync call: the pending exceptions are as before, and one line
    is written if the channel is up, none otherwise. *)
Lemma send_ipc_message_sync_effect (message : string) (st : Bridge) :
  let st' := snd (send_ipc_message_sync host message st) in
  js_exception st' = js_exception st /\ call_counter st' = call_counter st /\
  trace st' =
    trace st ++
    (if sync_channel_up host st
     then [SyncWritten (message +:+ String "010"%char "")] else []).
Proof.
  unfold send_ipc_message_sync, connect_sync_ipc, g_output_stream_write_all,
    sync_channel_up.
  destruct (sync_connection st); cbn.
  - destruct (write_ok host (write_attempts st)); cbn.
    + destruct (read_until_newline (sync_input st) "") as [response rest]; cbn. auto.
    + now rewrite app_nil_r.
  - destruct (connect_ok host (connect_attempts st)); cbn.
    + destruct (write_ok host (write_attempts st)); cbn.
      * destruct (read_until_newline (sync_input st) "") as [response rest]; cbn. auto.
      * now rewrite app_nil_r.
    + now rewrite app_nil_r.
Qed.


Lemma set_field_value_is_one_call (name : string) (value : JSCValue) (st : Bridge) :
  set_field_value host name value st =
  snd (send_ipc_message_sync host
         (json_generator_to_data host
            (set_field_request (pretty (call_counter st)) name value))
         (snd (next_call_id st))).
Proof.
  unfold set_field_value, next_call_id. cbn [snd].
  now destruct (send_ipc_message_sync host _ _).
Qed.


End Fields.

Section Decoder.

Variable host : Host.

(** The scalar rows of the conversion, the same in both decoders. *)
Lemma async_result_value_scalars (context : JSCContext) (st : Bridge) :
  (forall s, async_result_value host context (JsonNodeValue (GString s)) st
             = (JSString s, st)) /\
  (forall d, async_result_value host context (JsonNodeValue (GDouble d)) st
             = (JSNumber d, st)) /\
  (forall i, async_result_value host context (JsonNodeValue (GInt64 i)) st
             = (JSNumber (double_of_int64 i), st)) /\
  (forall b, async_result_value host context (JsonNodeValue (GBoolean b)) st
             = (JSBoolean b, st)) /\
  async_result_value host context (JsonNodeValue GOther) st = (JSNull, st) /\
  async_result_value host context JsonNodeNull st = (JSNull, st).
Proof. repeat split. Qed.

(** An object or an array that the page's parser accepts. *)
Lemma async_result_value_reparsed (context : JSCContext) (node : JsonNode)
    (v : JSCValue) (st : Bridge) :
  json_node_get_node_type node = JSON_NODE_OBJECT \/
  json_node_get_node_type node = JSON_NODE_ARRAY ->
  JSON_parse host (json_generator_to_data host node) = inl v ->
  js_exception st !! context = None ->
  async_result_value host context node st = (v, st).
Proof.
  intros Hty Hparse Hex. unfold async_result_value, call_json_parse.
  destruct node as [|x|elements|members]; cbn in Hty;
    try (destruct Hty; discriminate); rewrite Hparse, Hex; reflexivity.
Qed.

(** What the getter returns, from the line it read. *)
Lemma get_field_value_unfold (name : string) (context : JSCContext) (st st1 : Bridge)
    (response : option string) :
  send_ipc_message_sync host
    (json_generator_to_data host (get_field_request (pretty (call_counter st)) name))
    (snd (next_call_id st)) = (response, st1) ->
  get_field_value host name context st =
  match response with
  | Some line =>
      match json_parser_load_from_data host line with
      | Some root =>
          match json_object_get_member (json_node_get_object root) "result" with
          | Some (JsonNodeValue (GString s)) => (JSString s, st1)
          | Some (JsonNodeValue ((GDouble _ | GInt64 _) as v)) =>
              (JSNumber (json_node_get_double v), st1)
          | Some (JsonNodeValue (GBoolean b)) => (JSBoolean b, st1)
          | Some (JsonNodeValue GOther) => (JSNull, st1)
          | Some JsonNodeNull => (JSNull, st1)
          | Some ((JsonNodeObject _ | JsonNodeArray _) as node) =>
              call_json_parse host context (json_generator_to_data host node) st1
          | None => (JSUndefined, st1)
          end
      | None => (JSUndefined, st1)
      end
  | None => (JSUndefined, st1)
  end.
Proof.
  intros Hsend. unfold get_field_value.
  change (next_call_id st) with (pretty (call_counter st), snd (next_call_id st)).
  cbv iota beta. rewrite Hsend.
  destruct response as [line|]; [|reflexivity].
  destruct (json_parser_load_from_data host line) as [root|]; [|reflexivity].
  destruct (json_object_get_member (json_node_get_object root) "result")
    as [node|]; [|reflexivity].
  destruct node as [|v|elements|members]; try reflexivity.
  - destruct v; reflexivity.
  - now destruct (call_json_parse host context _ st1).
  - now destruct (call_json_parse host context _ st1).
Qed.

(** C7, where the code departs from it.  When the page's parser throws
    on the text of an object or array result, the decoder of the async
    replies clears the exception and substitutes [undefined]; the field
    getter returns [undefined] with the exception still pending in the
    context, so the failure reaches the script that read the field. *)
Theorem getter_keeps_reparse_exception (name : string) (context : JSCContext)
    (st st1 : Bridge) (line message : string) (root node : JsonNode) :
  send_ipc_message_sync host
    (json_generator_to_data host (get_field_request (pretty (call_counter st)) name))
    (snd (next_call_id st)) = (Some line, st1) ->
  json_parser_load_from_data host line = Some root ->
  json_object_get_member (json_node_get_object root) "result" = Some node ->
  json_node_get_node_type node = JSON_NODE_OBJECT \/
  json_node_get_node_type node = JSON_NODE_ARRAY ->
  JSON_parse host (json_generator_to_data host node) = inr message ->
  (exists st', get_field_value host name context st = (JSUndefined, st') /\
               js_exception st' !! context = Some message) /\
  (exists st', async_result_value host context node st1 = (JSUndefined, st') /\
               js_exception st' !! context = None).
Proof.
  intros Hsend Hline Hres Hty Hparse. split.
  - rewrite (get_field_value_unfold name context st st1 (Some line) Hsend).
    rewrite Hline, Hres. unfold call_json_parse.
    destruct node as [|x|elements|members]; cbn in Hty;
      try (destruct Hty; discriminate); rewrite Hparse;
      (eexists; split; [reflexivity|]); cbn; apply lookup_insert_eq.
  - unfold async_result_value, call_json_parse.
    destruct node as [|x|elements|members]; cbn in Hty;
      try (destruct Hty; discriminate); rewrite Hparse; cbn;
      rewrite lookup_insert_eq;
      (eexists; split; [reflexivity|]); cbn; apply lookup_delete_eq.
Qed.

(** C8, as amended.  A [__getField] call whose response is an object
    with the [result] 42 yields the number 42; one whose response is an
    object with an [error] yields [undefined], with nothing thrown and
    no function called: the state is the one the sync call left. *)
Theorem get_field_number_and_error (name : string) (context : JSCContext)
    (st st1 : Bridge) (line : string) (root : JsonNode) :
  send_ipc_message_sync host
    (json_generator_to_data host (get_field_request (pretty (call_counter st)) name))
    (snd (next_call_id st)) = (Some line, st1) ->
  json_parser_load_from_data host line = Some root ->
  (root = JsonNodeObject [("result", JsonNodeValue (GInt64 42))] ->
   get_field_value host name context st = (JSNumber 42%float, st1)) /\
  (forall message,
     root = JsonNodeObject [("error", JsonNodeValue (GString message))] ->
     get_field_value host name context st = (JSUndefined, st1)) /\
  js_exception st1 = js_exception st /\
  exists tr, trace st1 = trace st ++ tr /\ Forall is_sync_write tr.
Proof.
  intros Hsend Hline.
  pose proof (get_field_value_unfold name context st st1 (Some line) Hsend) as Hget.
  cbv beta iota in Hget. rewrite Hline in Hget.
  repeat split.
  - intros ->. rewrite Hget. reflexivity.
  - intros message ->. rewrite Hget. reflexivity.
  - pose proof (send_ipc_message_sync_effect host
                  (json_generator_to_data host
                     (get_field_request (pretty (call_counter st)) name))
                  (snd (next_call_id st))) as (He & _).
    rewrite Hsend in He. exact He.
  - pose proof (send_ipc_message_sync_frame host
                  (json_generator_to_data host
                     (get_field_request (pretty (call_counter st)) name))
                  (snd (next_call_id st))) as (_ & _ & _ & _ & Htr).
    rewrite Hsend in Htr. exact Htr.
Qed.

End Decoder.

Section Bindings.

Variable host : Host.

Lemma extends_refl (st : Bridge) : extends st st.
Proof. exists []. now rewrite app_nil_r. Qed.

Lemma extends_trans (a b c : Bridge) : extends a b -> extends b c -> extends a c.
Proof.
  intros [l Hl] [l' Hl']. exists (l ++ l'). rewrite Hl', Hl, <- app_assoc. reflexivity.
Qed.

Lemma extends_In (st st' : Bridge) (e : JSCContext * list string * Property) :
  extends st st' -> In e (js_installed st) -> In e (js_installed st').
Proof. intros [l Hl] Hin. rewrite Hl. apply in_or_app. now left. Qed.

Lemma install_extends (context : JSCContext) (path : list string) (p : Property)
    (st : Bridge) : extends st (install context path p st).
Proof. eexists. reflexivity. Qed.

Lemma install_In (context : JSCContext) (path : list string) (p : Property)
    (st : Bridge) : In (context, path, p) (js_installed (install context path p st)).
Proof. cbn. apply in_or_app. right. now left. Qed.

Lemma fold_left_extends {A : Type} (f : Bridge -> A -> Bridge) (l : list A) :
  (forall st x, extends st (f st x)) -> forall st, extends st (fold_left f l st).
Proof.
  intros Hf. induction l as [|x l IH]; intros st; cbn.
  - apply extends_refl.
  - eapply extends_trans; [apply Hf | apply IH].
Qed.

Lemma fold_left_installs {A : Type} (f : Bridge -> A -> Bridge) (l : list A) (x : A)
    (e : JSCContext * list string * Property) :
  (forall st y, extends st (f st y)) -> In x l ->
  (forall st, In e (js_installed (f st x))) ->
  forall st, In e (js_installed (fold_left f l st)).
Proof.
  intros Hf Hin He. induction l as [|a l IH]; intros st; [contradiction|].
  cbn [fold_left]. destruct Hin as [->|Hin].
  - eapply extends_In; [apply (fold_left_extends f l Hf)|apply He].
  - now apply IH.
Qed.

Lemma inject_methods_extends (context : JSCContext) (object : list string)
    (methods : list JsonNode) (st : Bridge) :
  extends st (inject_methods context object methods st).
Proof. apply fold_left_extends. intros. apply install_extends. Qed.

Lemma inject_fields_extends (context : JSCContext) (object : list string)
    (fields : list JsonNode) (st : Bridge) :
  extends st (inject_fields context object fields st).
Proof. apply fold_left_extends. intros. apply install_extends. Qed.

Lemma inject_struct_extends (context : JSCContext) (pkg : string) (st : Bridge)
    (entry : string * JsonNode) : extends st (inject_struct context pkg st entry).
Proof.
  destruct entry as [struct_name struct_node]. unfold inject_struct.
  eapply extends_trans; [apply install_extends|].
  destruct (json_object_has_member _ "methods");
    destruct (json_object_has_member _ "fields");
    try apply extends_refl;
    try apply inject_methods_extends; try apply inject_fields_extends.
  eapply extends_trans; [apply inject_methods_extends | apply inject_fields_extends].
Qed.

Lemma inject_package_extends (context : JSCContext) (st : Bridge)
    (entry : string * JsonNode) : extends st (inject_package context st entry).
Proof.
  destruct entry as [pkg_name pkg_node]. unfold inject_package.
  eapply extends_trans; [apply install_extends|].
  apply fold_left_extends. intros. apply inject_struct_extends.
Qed.

Lemma inject_strux_namespace_extends (context : JSCContext) (st : Bridge)
    (entry : string * JsonNode) : extends st (inject_strux_namespace context st entry).
Proof.
  destruct entry as [ns node]. unfold inject_strux_namespace.
  destruct (json_object_has_member _ "methods"); [|apply install_extends].
  eapply extends_trans; [apply install_extends|].
  apply fold_left_extends. intros. apply install_extends.
Qed.

(** C1, as amended.  For every method declared in a struct of a
    namespace of the schema, the stub installed at
    [go.<namespace>.<struct>.<method>] captures the short name of the
    method, and a call of it submits a request whose envelope has that
    short name as its [method] member. *)
Theorem stub_sends_short_method_name (context : JSCContext)
    (bindings : list (string * JsonNode)) (st : Bridge)
    (pkg struct : string) (pkg_node struct_node method_info : JsonNode)
    (methods : list JsonNode) :
  In (pkg, pkg_node) bindings ->
  In (struct, struct_node) (json_node_get_object pkg_node) ->
  json_object_get_member (json_node_get_object struct_node) "methods"
    = Some (JsonNodeArray methods) ->
  In method_info methods ->
  let name := json_object_get_string_member (json_node_get_object method_info) "name" in
  In (context, ["go"; pkg; struct; name], MethodStub name)
     (js_installed (inject_schema context bindings st)) /\
  forall (args : list JSCValue) (c : JSCContext) (st0 : Bridge),
    let id := pretty (call_counter st0) in
    let envelope := call_envelope id name args in
    json_object_get_member (json_node_get_object envelope) "method"
      = Some (JsonNodeValue (GString name)) /\
    go_method_callback_variadic host args name c st0 =
      (JSPromise (js_promises st0),
       send_ipc_message_async host (json_generator_to_data host envelope) id
         (JSFunction (PromiseResolve (js_promises st0)))
         (JSFunction (PromiseReject (js_promises st0))) c
         (set_js_promises (S (js_promises st0)) (snd (next_call_id st0)))).
Proof.
  intros Hpkg Hstruct Hmethods Hinfo. cbn zeta. split; [|intros; split; reflexivity].
  unfold inject_schema.
  assert (Hgo : In (context,
                    ["go"; pkg; struct;
                     json_object_get_string_member (json_node_get_object method_info)
                       "name"],
                    MethodStub
                      (json_object_get_string_member (json_node_get_object method_info)
                         "name"))
                   (js_installed
                      (fold_left (inject_package context) bindings
                         (install context ["go"] ProxyObject st)))).
  { apply (fold_left_installs _ bindings (pkg, pkg_node));
      [intros; apply inject_package_extends | exact Hpkg |].
    intros st0. unfold inject_package.
    apply (fold_left_installs _ _ (struct, struct_node));
      [intros; apply inject_struct_extends | exact Hstruct |].
    intros st1. unfold inject_struct.
    assert (Hhas : json_object_has_member (json_node_get_object struct_node) "methods"
                   = true)
      by (unfold json_object_has_member; now rewrite Hmethods).
    assert (Harr : json_object_get_array_member (json_node_get_object struct_node)
                     "methods" = methods)
      by (unfold json_object_get_array_member; now rewrite Hmethods).
    rewrite Hhas, Harr.
    assert (Hm : In (context,
                     ["go"; pkg; struct;
                      json_object_get_string_member (json_node_get_object method_info)
                        "name"],
                     MethodStub
                       (json_object_get_string_member
                          (json_node_get_object method_info) "name"))
                    (js_installed
                       (inject_methods context ["go"; pkg; struct] methods
                          (install context ["go"; pkg; struct] ProxyObject st1)))).
    { unfold inject_methods.
      apply (fold_left_installs _ methods method_info);
        [intros; apply install_extends | exact Hinfo |].
      intros st2. apply install_In. }
    destruct (json_object_has_member (json_node_get_object struct_node) "fields");
      [|exact Hm].
    eapply extends_In; [apply inject_fields_extends | exact Hm]. }
  destruct (json_object_has_member bindings "strux"); [|exact Hgo].
  eapply extends_In; [|exact Hgo].
  eapply extends_trans; [apply install_extends|].
  apply fold_left_extends. intros. apply inject_strux_namespace_extends.
Qed.

End Bindings.

(** * The properties on the scenarios *)
Section Scenarios.

Import Reference Scenario.

(** *** The model on small inputs *)

Example call_ids_are_decimal :
  fst (next_call_id (set_call_counter 41 (initial []))) = "41" /\
  call_counter (snd (next_call_id (set_call_counter (2 ^ 32 - 1) (initial [])))) = 0%N.
Proof. split; reflexivity. Qed.

Example sync_line_is_read_up_to_newline :
  read_until_newline (list_ascii_of_string ("ab" +:+ String "010"%char "cd")) ""
    = (Some "ab", list_ascii_of_string "cd").
Proof. reflexivity. Qed.

Example int32_rejects_boolean :
  let st := field_setter_callback backend (JSBoolean true) count_field 1 (initial []) in
  js_exception st !! 1
    = Some "TypeError: Cannot assign to field 'Count': expected int32 but got boolean" /\
  trace st = [] /\ write_attempts st = 0.
Proof. vm_compute. repeat split. Qed.

Example int32_accepts_number :
  let st := field_setter_callback backend (JSNumber 7) count_field 1 (initial []) in
  js_exception st = ∅ /\
  trace st = [SyncWritten (render (set_field_request "0" "Count" (JSNumber 7))
                           +:+ String "010"%char "")] /\
  write_attempts st = 1.
Proof. vm_compute. repeat split. Qed.

(** A reply with an object result reaches the script as the object. *)
Example nested_result_is_reparsed :
  trace (run backend [CallStub "Greet" [] 1; ReadDone (ReadLine (render result_nested))]
           (initial []))
  = [AsyncWritten (request 0 "0");
     FunctionCall (JSFunction (PromiseResolve 0))
       (JSObject [("a", JSArray [JSNumber 1; JSNumber 2])])].
Proof. vm_compute. reflexivity. Qed.

(** A reply with an error rejects with its message; the request is then
    no longer outstanding. *)
Example error_reply_rejects :
  let st := run backend [CallStub "Greet" [] 1; ReadDone (ReadLine (render error_boom))]
              (initial []) in
  trace st = [AsyncWritten (request 0 "0");
              FunctionCall (JSFunction (PromiseReject 0)) (JSString "boom")] /\
  outstanding st = [] /\ async_inflight st = false.
Proof. vm_compute. repeat split. Qed.

(** With no backend every call is rejected at once. *)
Example calls_without_backend_reject :
  let st := run unreachable [CallStub "Greet" [] 1; CallStub "Greet" [] 1] (initial []) in
  trace st = [FunctionCall (JSFunction (PromiseReject 0)) (JSString "Failed to connect to IPC");
              FunctionCall (JSFunction (PromiseReject 1)) (JSString "Failed to connect to IPC")] /\
  async_queue st = [] /\ async_inflight st = false /\ pending_promises st = ∅.
Proof. vm_compute. repeat split. Qed.

(** The stub of [Greet] in namespace [main], struct [App], sends the
    method name [Greet], not [main.App.Greet]. *)
Lemma greet_stub_sends_short_name :
  let st := call_installed backend 1 greet_path []
              (window_object_cleared_callback backend 1 (initial (line schema_response))) in
  lookup_property 1 greet_path st = Some (MethodStub "Greet") /\
  last (trace st) = Some (AsyncWritten (request 0 "0")) /\
  req_message (request 0 "0") = render (call_envelope "0" "Greet" []) /\
  req_message (request 0 "0") <> render (call_envelope "0" "main.App.Greet" []).
Proof.
  cbn zeta. split; [vm_compute; reflexivity|].
  split; [vm_compute; reflexivity|]. split; [reflexivity|].
  intros H. apply String.eqb_eq in H. vm_compute in H. discriminate.
Qed.

Lemma stub_sends_short_method_name_witness :
  In (1, ["go"; "main"; "App"; "Greet"], MethodStub "Greet")
     (js_installed (inject_schema 1 schema (initial []))).
Proof.
  apply (stub_sends_short_method_name backend 1 schema (initial []) "main" "App"
           (JsonNodeObject
              [("App", JsonNodeObject
                         [("methods", JsonNodeArray app_methods);
                          ("fields",
                           JsonNodeArray [JsonNodeObject [("name", text "Count");
                                                          ("type", text "int32")]])])])
           (JsonNodeObject
              [("methods", JsonNodeArray app_methods);
               ("fields",
                JsonNodeArray [JsonNodeObject [("name", text "Count");
                                               ("type", text "int32")]])])
           (JsonNodeObject [("name", text "Greet")]) app_methods).
  - left. reflexivity.
  - left. reflexivity.
  - reflexivity.
  - left. reflexivity.
Defined.

Lemma async_calls_serialized_witness :
  let st := deliver_all backend [render result_42; render error_boom]
              (enqueue_all backend [request 0 "0"; request 1 "1"] (initial [])) in
  exists tr, trace st = trace (initial []) ++ tr /\
    serialized backend [request 0 "0"; request 1 "1"]
      [render result_42; render error_boom] tr /\
    length (async_reads st) <= 1 /\
    async_queue st = drop 3 [request 0 "0"; request 1 "1"].
Proof.
  apply (async_calls_serialized backend (fun _ => eq_refl) (fun _ => eq_refl)
           (initial []) [request 0 "0"; request 1 "1"]
           [render result_42; render error_boom]).
  repeat split.
Defined.

(** Both requests of the run above are settled, in the order of
    submission, each before the next is written. *)
Example two_calls_settle_in_order :
  trace (deliver_all backend [render result_42; render error_boom]
           (enqueue_all backend [request 0 "0"; request 1 "1"] (initial [])))
  = [AsyncWritten (request 0 "0");
     FunctionCall (JSFunction (PromiseResolve 0)) (JSNumber 42);
     AsyncWritten (request 1 "1");
     FunctionCall (JSFunction (PromiseReject 1)) (JSString "boom")].
Proof. vm_compute. reflexivity. Qed.

Lemma unreachable_transport_rejects_queue_witness :
  let st' := start_next_async_request unreachable two_queued in
  async_queue st' = [] /\ async_inflight st' = false /\
  async_reads st' = async_reads two_queued /\
  pending_promises st' ⊆ pending_promises two_queued /\
  (async_connection two_queued = true ->
   forall req, req ∈ async_queue two_queued ->
               pending_promises st' !! req_call_id req = None) /\
  exists evs, trace st' = trace two_queued ++ evs /\
              Forall2 rejects (async_queue two_queued) evs.
Proof.
  apply (unreachable_transport_rejects_queue unreachable two_queued).
  - reflexivity.
  - left. split; [reflexivity | intros n; reflexivity].
Defined.

Lemma connect_failure_leaves_table_witness :
  exists st',
    start_next_async_request unreachable two_queued
      = start_next_async_request unreachable st' /\
    pending_promises st' = pending_promises two_queued /\
    trace st' =
      trace two_queued ++
      [FunctionCall (req_reject (request 0 "0")) (JSString "Failed to connect to IPC")] /\
    async_queue st' = [request 1 "1"] /\ async_inflight st' = false.
Proof.
  apply (connect_failure_leaves_table unreachable two_queued
           (request 0 "0") [request 1 "1"]); reflexivity.
Defined.

(** A reply with neither member: the request was written and its
    continuation was neither settled nor dropped, and the flag is down. *)
Lemma unanswered_request_with_flag_down :
  let st := run backend [CallStub "Greet" [] 1; ReadDone (ReadLine (render no_member))]
              (initial []) in
  quiet backend st 0 /\
  outstanding st = [request 0 "0"] /\ async_inflight st = false /\
  ~ (async_inflight st = true <-> length (outstanding st) = 1).
Proof.
  cbn zeta. split.
  - exact (quiet_step backend (ReadDone (ReadLine (render no_member))) _ 0
             (quiet_step backend (CallStub "Greet" [] 1) _ 0
                (quiet_initial backend []) I)
             (or_introl eq_refl)).
  - split; [vm_compute; reflexivity|]. split; [vm_compute; reflexivity|].
    intros [_ H]. assert (Hone : length (outstanding
      (run backend [CallStub "Greet" [] 1; ReadDone (ReadLine (render no_member))]
         (initial []))) = 1) by (vm_compute; reflexivity).
    specialize (H Hone). vm_compute in H. discriminate.
Qed.

(** A context is cleared while the reply of the first call is awaited,
    then a second call is made: one read is left from before the
    reset, and the flag is up on the one request written since. *)
Lemma inflight_iff_one_reply_awaited_witness :
  let st := run backend [CallStub "Greet" [] 1; WindowCleared 1; CallStub "Greet" [] 1]
              (initial []) in
  let awaited := drop 1 (async_reads st) in
  (async_inflight st = true <-> length awaited = 1) /\
  (async_inflight st = false <-> awaited = []) /\
  length (async_reads st) = 1 + length awaited /\
  (async_inflight st = true ->
   exists req, awaited = [{| read_call_id := req_call_id req |}] /\
               written_last req (trace st)).
Proof.
  apply (inflight_iff_one_reply_awaited backend
           (run backend [CallStub "Greet" [] 1; WindowCleared 1; CallStub "Greet" [] 1]
              (initial [])) 1).
  exact (quiet_step backend (CallStub "Greet" [] 1) _ 1
           (quiet_step backend (WindowCleared 1) _ 0
              (quiet_step backend (CallStub "Greet" [] 1) _ 0
                 (quiet_initial backend []) I) I) I).
Defined.

(** The reply of a call made before a context reset arrives while a
    call made after it awaits its reply and another is queued: the
    callback finds no promise, clears the flag and writes the queued
    request.  Two requests are now on the wire, with the flag up. *)
Lemma stale_reply_writes_second_request :
  let before := run backend [CallStub "Greet" [] 1; WindowCleared 1;
                             CallStub "Greet" [] 1; CallStub "Greet" [] 1] (initial []) in
  let st := handle backend (ReadDone (ReadLine (render result_42))) before in
  quiet backend before 1 /\
  async_inflight before = true /\ outstanding before = [request 1 "1"] /\
  async_queue before = [request 2 "2"] /\
  async_inflight st = true /\
  outstanding st = [request 1 "1"; request 2 "2"] /\
  async_reads st = [{| read_call_id := "1" |}; {| read_call_id := "2" |}] /\
  settled (trace st) = [].
Proof.
  cbn zeta. split.
  - exact (quiet_step backend (CallStub "Greet" [] 1) _ 1
             (quiet_step backend (CallStub "Greet" [] 1) _ 1
                (quiet_step backend (WindowCleared 1) _ 0
                   (quiet_step backend (CallStub "Greet" [] 1) _ 0
                      (quiet_initial backend []) I) I) I) I).
  - vm_compute. repeat split.
Qed.

(** The read of the first reply fails: the second request stays queued,
    a third one joins it, nothing is written and no read is started. *)
Lemma read_failure_example :
  let st := run backend [CallStub "Greet" [] 1; CallStub "Greet" [] 1; ReadDone ReadEof;
                         CallStub "Greet" [] 1] (initial []) in
  async_inflight st = true /\ async_reads st = [] /\
  async_queue st = [request 1 "1"; request 2 "2"] /\
  trace st = [AsyncWritten (request 0 "0");
              FunctionCall (JSFunction (PromiseReject 0))
                (JSString "Failed to read response")].
Proof. vm_compute. repeat split. Qed.

Lemma read_failure_stalls_queue_witness :
  let st := enqueue backend (request 0 "0") (initial []) in
  let st1 := async_read_callback backend {| read_call_id := "0" |} ReadEof st in
  let st2 := enqueue_all backend [request 1 "1"] st1 in
  async_inflight st1 = true /\ async_queue st1 = async_queue st /\
  async_inflight st2 = true /\ async_queue st2 = async_queue st ++ [request 1 "1"] /\
  trace st2 = trace st1.
Proof.
  apply (read_failure_stalls_queue backend {| read_call_id := "0" |} ReadEof
           (enqueue backend (request 0 "0") (initial [])) [request 1 "1"]).
  - exact I.
  - vm_compute. reflexivity.
Defined.

(** A field read whose object result the page's parser rejects. *)
Lemma getter_keeps_reparse_exception_witness :
  let st := initial (line result_nested) in
  (exists st', get_field_value backend_strict_page "Count" 1 st = (JSUndefined, st') /\
               js_exception st' !! 1 = Some "SyntaxError: JSON Parse error") /\
  (exists st',
     async_result_value backend_strict_page 1 nested
       (snd (send_ipc_message_sync backend_strict_page
               (render (get_field_request "0" "Count")) (snd (next_call_id st))))
       = (JSUndefined, st') /\
     js_exception st' !! 1 = None).
Proof.
  apply (getter_keeps_reparse_exception backend_strict_page "Count" 1
           (initial (line result_nested)) _ (render result_nested)
           "SyntaxError: JSON Parse error" result_nested nested).
  - vm_compute. reflexivity.
  - vm_compute. reflexivity.
  - reflexivity.
  - left. reflexivity.
  - vm_compute. reflexivity.
Defined.

(** A field read answered with an error: [undefined], nothing thrown,
    nothing rejected. *)
Lemma getter_error_is_not_rejected :
  let out := get_field_value backend "Count" 1 (initial (line error_boom)) in
  fst out = JSUndefined /\ ~ rejected_with "boom" 1 (snd out).
Proof.
  cbn zeta. split; [vm_compute; reflexivity|].
  intros [H|[callee H]]; vm_compute in H.
  - discriminate.
  - destruct H as [H|[]]. discriminate.
Qed.

Lemma get_field_number_and_error_witness :
  let st := initial (line result_42) in
  get_field_value backend "Count" 1 st
    = (JSNumber 42%float,
       snd (send_ipc_message_sync backend (render (get_field_request "0" "Count"))
              (snd (next_call_id st)))).
Proof.
  apply (get_field_number_and_error backend "Count" 1 (initial (line result_42)) _
           (render result_42) result_42).
  - vm_compute. reflexivity.
  - vm_compute. reflexivity.
  - reflexivity.
Defined.

End Scenarios.

(** * Further properties of the code *)

Section SyncChannel.

Variable host : Host.

Lemma append_byte (acc : string) (byte : ascii) (s : string) :
  (acc +:+ String byte "") +:+ s = acc +:+ String byte s.
Proof.
  induction acc as [|a acc IH]; [reflexivity|].
  change (String a ((acc +:+ String byte "") +:+ s) = String a (acc +:+ String byte s)).
  f_equal. exact IH.
Qed.

Lemma append_empty (acc : string) : acc +:+ "" = acc.
Proof.
  induction acc as [|a acc IH]; [reflexivity|].
  change (String a (acc +:+ "") = String a acc). f_equal. exact IH.
Qed.

Lemma read_until_newline_line (bytes rest : list ascii) (acc : string) :
  no_newline bytes ->
  read_until_newline (bytes ++ newline :: rest) acc
    = (Some (acc +:+ string_of_list_ascii bytes), rest).
Proof.
  intros Hno. revert acc. induction Hno as [|byte bytes Hb Hno IH]; intros acc.
  - cbn. now rewrite append_empty.
  - cbn. destruct (Ascii.eqb_spec byte "010"%char) as [->|_]; [now destruct Hb|].
    rewrite (IH (acc +:+ String byte "")), append_byte. reflexivity.
Qed.

Lemma g_string_free_cut (head tail : list ascii) :
  no_nul head -> tail = [] \/ (exists rest, tail = nul :: rest) ->
  g_string_free (string_of_list_ascii (head ++ tail)) = string_of_list_ascii head.
Proof.
  intros Hno Htail. induction Hno as [|byte head Hb Hno IH].
  - destruct Htail as [->|[rest ->]]; reflexivity.
  - cbn. destruct (Ascii.eqb_spec byte "000"%char) as [->|_]; [now destruct Hb|].
    now rewrite IH.
Qed.

(** X1.  The read loop of the sync channel takes the bytes up to the
    first newline and leaves the bytes after it for the next call; the
    response the caller gets is the bytes before the newline up to the
    first NUL among them, all of them when there is none.  On a stream
    that ends before any newline the call fails and the bytes read are
    lost. *)
Theorem read_until_newline_frames (bytes rest : list ascii) (acc : string) :
  no_newline bytes ->
  read_until_newline (bytes ++ newline :: rest) acc
    = (Some (acc +:+ string_of_list_ascii bytes), rest) /\
  read_until_newline bytes acc = (None, []) /\
  (no_nul bytes ->
   g_string_free (string_of_list_ascii bytes) = string_of_list_ascii bytes) /\
  (forall head tail, bytes = head ++ nul :: tail -> no_nul head ->
   g_string_free (string_of_list_ascii bytes) = string_of_list_ascii head).
Proof.
  intros Hno. split; [now apply read_until_newline_line|]. split.
  - revert acc. induction Hno as [|byte bytes Hb Hno IH]; intros acc.
    + reflexivity.
    + cbn. destruct (Ascii.eqb_spec byte "010"%char) as [->|_]; [now destruct Hb|].
      apply IH.
  - split.
    + intros Hnul. rewrite <- (app_nil_r bytes) at 1.
      apply g_string_free_cut; auto.
    + intros head tail -> Hnul. apply g_string_free_cut; eauto.
Qed.

Lemma sync_call_succeeds (message : string) (bytes rest : list ascii) (st : Bridge) :
  sync_channel_up host st = true ->
  sync_input st = bytes ++ newline :: rest -> no_newline bytes ->
  exists st',
    send_ipc_message_sync host message st
      = (Some (g_string_free (string_of_list_ascii bytes)), st') /\
    sync_input st' = rest /\ sync_connection st' = true /\
    write_attempts st' = S (write_attempts st) /\
    connect_attempts st' <= S (connect_attempts st) /\
    trace st' = trace st ++ [SyncWritten (message +:+ String "010"%char "")].
Proof.
  intros Hup Hin Hno. unfold sync_channel_up in Hup.
  apply andb_true_iff in Hup as [Hconn Hwrite].
  pose proof (read_until_newline_line bytes rest "" Hno) as Hline.
  change ("" +:+ string_of_list_ascii bytes) with (string_of_list_ascii bytes) in Hline.
  unfold send_ipc_message_sync, connect_sync_ipc, g_output_stream_write_all.
  destruct (sync_connection st) eqn:Hc; cbn.
  - rewrite Hwrite. cbn. rewrite Hin, Hline. cbn. eexists. split; [reflexivity|].
    cbn. repeat split; auto.
  - cbn in Hconn. rewrite Hconn. cbn. rewrite Hwrite. cbn. rewrite Hin, Hline. cbn.
    eexists. split; [reflexivity|]. cbn. repeat split; auto.
Qed.

(** X2.  With an endpoint that is up, two sync calls in a row each get
    their own line: the first the bytes before the first newline, the
    second the bytes between the first and the second, each as the C
    string the caller reads (the whole line when it holds no NUL); both
    requests were written, in order, and at most one connect was made. *)
Theorem sync_calls_read_their_own_lines (m1 m2 : string) (l1 l2 rest : list ascii)
    (st : Bridge) :
  (forall n, connect_ok host n = true) -> (forall n, write_ok host n = true) ->
  sync_input st = l1 ++ newline :: l2 ++ newline :: rest ->
  no_newline l1 -> no_newline l2 ->
  exists r1 r2 st1 st2,
    send_ipc_message_sync host m1 st = (Some r1, st1) /\
    send_ipc_message_sync host m2 st1 = (Some r2, st2) /\
    (no_nul l1 -> r1 = string_of_list_ascii l1) /\
    (no_nul l2 -> r2 = string_of_list_ascii l2) /\
    (forall head tail, l1 = head ++ nul :: tail -> no_nul head ->
       r1 = string_of_list_ascii head) /\
    (forall head tail, l2 = head ++ nul :: tail -> no_nul head ->
       r2 = string_of_list_ascii head) /\
    sync_input st2 = rest /\
    connect_attempts st2 <= S (connect_attempts st) /\
    trace st2 = trace st ++ [SyncWritten (m1 +:+ String "010"%char "");
                             SyncWritten (m2 +:+ String "010"%char "")].
Proof.
  intros Hconn Hwrite Hin Hl1 Hl2.
  assert (Hup : forall s, sync_channel_up host s = true).
  { intros s. unfold sync_channel_up. rewrite Hconn, Hwrite. now rewrite orb_true_r. }
  destruct (sync_call_succeeds m1 l1 (l2 ++ newline :: rest) st (Hup st) Hin Hl1)
    as (st1 & H1 & Hin1 & Hc1 & Hw1 & Ha1 & Ht1).
  destruct (sync_call_succeeds m2 l2 rest st1 (Hup st1) Hin1 Hl2)
    as (st2 & H2 & Hin2 & Hc2 & Hw2 & Ha2 & Ht2).
  exists (g_string_free (string_of_list_ascii l1)),
         (g_string_free (string_of_list_ascii l2)), st1, st2.
  split; [exact H1|]. split; [exact H2|].
  split; [intros Hn; rewrite <- (app_nil_r l1) at 1; apply g_string_free_cut; auto|].
  split; [intros Hn; rewrite <- (app_nil_r l2) at 1; apply g_string_free_cut; auto|].
  split; [intros head tail -> Hn; apply g_string_free_cut; eauto|].
  split; [intros head tail -> Hn; apply g_string_free_cut; eauto|].
  split; [exact Hin2|]. split.
  - assert (Hsame : connect_attempts st2 = connect_attempts st1).
    { revert H2. unfold send_ipc_message_sync, connect_sync_ipc,
        g_output_stream_write_all. rewrite Hc1. cbn. rewrite Hwrite. cbn.
      destruct (read_until_newline (sync_input st1) "") as [r i]. cbn.
      intros [= _ <-]. reflexivity. }
    lia.
  - rewrite Ht2, Ht1, <- app_assoc. reflexivity.
Qed.

(** X3.  When the sync channel cannot be used (the connect fails, or
    the write does), a sync call returns no response, writes nothing,
    reads nothing from the socket and does not try a second time; a
    failed connect leaves the channel unconnected for the next call. *)
Theorem sync_call_fails_without_channel (message : string) (st : Bridge) :
  sync_channel_up host st = false ->
  exists st',
    send_ipc_message_sync host message st = (None, st') /\
    sync_input st' = sync_input st /\ trace st' = trace st /\
    connect_attempts st' <= S (connect_attempts st) /\
    write_attempts st' <= S (write_attempts st) /\
    (sync_connection st = false -> connect_ok host (connect_attempts st) = false ->
     sync_connection st' = false /\ write_attempts st' = write_attempts st).
Proof.
  intros Hup. unfold sync_channel_up in Hup.
  unfold send_ipc_message_sync, connect_sync_ipc, g_output_stream_write_all.
  destruct (sync_connection st) eqn:Hc; cbn in *.
  - rewrite Hup. cbn. eexists. split; [reflexivity|]. cbn.
    repeat split; auto; discriminate.
  - destruct (connect_ok host (connect_attempts st)) eqn:Hk; cbn in *.
    + rewrite Hup. cbn. eexists. split; [reflexivity|]. cbn.
      repeat split; auto; discriminate.
    + eexists. split; [reflexivity|]. cbn. repeat split; auto.
Qed.

End SyncChannel.

Section Steady.

Variable host : Host.

Lemma bool_le_refl (b : bool) : Bool.le b b.
Proof. now destruct b. Qed.

Lemma bool_le_true (b : bool) : Bool.le b true.
Proof. now destruct b. Qed.

Lemma bool_le_trans (a b c : bool) : Bool.le a b -> Bool.le b c -> Bool.le a c.
Proof. destruct a, b, c; cbn; auto. Qed.

Lemma steady_refl (st : Bridge) : steady st st.
Proof. unfold steady. repeat split; auto using bool_le_refl. Qed.

Lemma steady_trans (a b c : Bridge) : steady a b -> steady b c -> steady a c.
Proof.
  intros (Hs & Ha & Hc & Hp) (Hs' & Ha' & Hc' & Hp'). unfold steady.
  repeat split; eauto using bool_le_trans. lia.
Qed.

Ltac steady_fields :=
  unfold steady; cbn;
  repeat split; auto using bool_le_refl, bool_le_true; try lia.

Lemma next_call_id_steady (st : Bridge) : steady st (snd (next_call_id st)).
Proof.
  steady_fields. intros _. apply N.mod_upper_bound. discriminate.
Qed.

Lemma start_next_depth_steady (n : nat) :
  forall st, steady st (start_next_depth host n st).
Proof.
  induction n as [|n IH]; intros st; [apply steady_refl|].
  cbn [start_next_depth]. unfold start_next_body.
  destruct (async_inflight st); [apply steady_refl|].
  destruct (async_queue st) as [|req rest]; [apply steady_refl|].
  unfold connect_async_ipc, g_output_stream_write_all; cbn.
  destruct (async_connection st) eqn:Hc; cbn.
  - destruct (write_ok host (write_attempts st)); cbn.
    + steady_fields.
    + eapply steady_trans; [|apply IH]. steady_fields.
  - destruct (connect_ok host (connect_attempts st)); cbn.
    + destruct (write_ok host (write_attempts st)); cbn.
      * steady_fields.
      * eapply steady_trans; [|apply IH]. steady_fields.
    + eapply steady_trans; [|apply IH]. steady_fields.
Qed.

Lemma start_next_steady (st : Bridge) : steady st (start_next_async_request host st).
Proof. apply start_next_depth_steady. Qed.

Lemma send_ipc_message_async_steady (message call_id : string)
    (resolve reject : JSCValue) (context : JSCContext) (st : Bridge) :
  steady st (send_ipc_message_async host message call_id resolve reject context st).
Proof.
  unfold send_ipc_message_async. cbn.
  destruct (async_inflight st); cbn; [steady_fields|].
  eapply steady_trans; [|apply start_next_steady]. steady_fields.
Qed.

Lemma async_read_callback_steady (ctx : AsyncReadContext) (res : ReadResult)
    (st : Bridge) : steady st (async_read_callback host ctx res st).
Proof.
  destruct res as [line| |message].
  - assert (H : exists st2,
               async_read_callback host ctx (ReadLine line) st =
                 start_next_async_request host (set_async_inflight false st2) /\
               steady st st2).
    { unfold async_read_callback. eexists. split; [reflexivity|].
      destruct (json_parser_load_from_data host line) as [root|]; [|apply steady_refl].
      destruct (pending_promises st !! read_call_id ctx) as [promise|];
        [|apply steady_refl].
      destruct (json_object_has_member (json_node_get_object root) "error"); cbn;
        [steady_fields|].
      destruct (json_object_get_member (json_node_get_object root) "result")
        as [node|]; cbn; [|steady_fields].
      destruct (async_result_value_frame host (promise_context promise) node st)
        as [ex Hex].
      destruct (async_result_value host (promise_context promise) node st) as [v st1].
      cbn in Hex. subst st1. steady_fields. }
    destruct H as (st2 & Heq & Hst). rewrite Heq.
    eapply steady_trans; [exact Hst|].
    eapply steady_trans; [|apply start_next_steady]. steady_fields.
  - unfold async_read_callback.
    destruct (pending_promises st !! read_call_id ctx); steady_fields.
  - unfold async_read_callback.
    destruct (pending_promises st !! read_call_id ctx); steady_fields.
Qed.

Lemma send_ipc_message_sync_steady (message : string) (st : Bridge) :
  steady st (snd (send_ipc_message_sync host message st)).
Proof.
  unfold send_ipc_message_sync, connect_sync_ipc, g_output_stream_write_all.
  destruct (sync_connection st) eqn:Hc; cbn.
  - destruct (write_ok host (write_attempts st)); cbn.
    + destruct (read_until_newline (sync_input st) "") as [response rest]; cbn.
      steady_fields.
    + steady_fields.
  - destruct (connect_ok host (connect_attempts st)); cbn.
    + destruct (write_ok host (write_attempts st)); cbn.
      * destruct (read_until_newline (sync_input st) "") as [response rest]; cbn.
        steady_fields.
      * steady_fields.
    + steady_fields.
Qed.

Lemma call_json_parse_steady (context : JSCContext) (text : string) (st : Bridge) :
  steady st (snd (call_json_parse host context text st)).
Proof.
  unfold call_json_parse. destruct (JSON_parse host text); cbn; steady_fields.
Qed.

Lemma get_field_value_steady (name : string) (context : JSCContext) (st : Bridge) :
  steady st (snd (get_field_value host name context st)).
Proof.
  pose proof (next_call_id_steady st) as H1.
  pose proof (send_ipc_message_sync_steady
                (json_generator_to_data host
                   (get_field_request (pretty (call_counter st)) name))
                (snd (next_call_id st))) as H2.
  destruct (send_ipc_message_sync host
              (json_generator_to_data host
                 (get_field_request (pretty (call_counter st)) name))
              (snd (next_call_id st))) as [response st1] eqn:Hsend.
  cbn [snd] in H2.
  assert (H12 : steady st st1) by exact (steady_trans _ _ _ H1 H2).
  rewrite (get_field_value_unfold host name context st st1 response Hsend).
  destruct response as [line|]; [|exact H12].
  destruct (json_parser_load_from_data host line) as [root|]; [|exact H12].
  destruct (json_object_get_member (json_node_get_object root) "result")
    as [node|]; [|exact H12].
  destruct node as [|v|elements|members]; cbn [snd]; try exact H12.
  - destruct v; exact H12.
  - exact (steady_trans _ _ _ H12 (call_json_parse_steady context _ st1)).
  - exact (steady_trans _ _ _ H12 (call_json_parse_steady context _ st1)).
Qed.

Lemma field_setter_callback_steady (value : JSCValue) (data : FieldUserData)
    (context : JSCContext) (st : Bridge) :
  steady st (field_setter_callback host value data context st).
Proof.
  unfold field_setter_callback.
  destruct (type_valid (field_type data) value); cbn [negb]; [|steady_fields].
  rewrite set_field_value_is_one_call.
  exact (steady_trans _ _ _ (next_call_id_steady st)
           (send_ipc_message_sync_steady _ _)).
Qed.

Lemma fold_left_steady {A : Type} (f : Bridge -> A -> Bridge) (l : list A) :
  (forall st x, steady st (f st x)) -> forall st, steady st (fold_left f l st).
Proof.
  intros Hf. induction l as [|x l IH]; intros st; cbn.
  - apply steady_refl.
  - eapply steady_trans; [apply Hf | apply IH].
Qed.

Lemma install_steady (context : JSCContext) (path : list string) (p : Property)
    (st : Bridge) : steady st (install context path p st).
Proof. steady_fields. Qed.

Lemma inject_schema_steady (context : JSCContext) (bindings : list (string * JsonNode))
    (st : Bridge) : steady st (inject_schema context bindings st).
Proof.
  assert (Hm : forall object methods st0,
             steady st0 (inject_methods context object methods st0)).
  { intros. apply fold_left_steady. intros. apply install_steady. }
  assert (Hf : forall object fields st0,
             steady st0 (inject_fields context object fields st0)).
  { intros. apply fold_left_steady. intros. apply install_steady. }
  assert (Hs : forall pkg st0 entry, steady st0 (inject_struct context pkg st0 entry)).
  { intros pkg st0 [struct_name struct_node]. unfold inject_struct.
    eapply steady_trans; [apply install_steady|].
    destruct (json_object_has_member _ "methods");
      destruct (json_object_has_member _ "fields");
      try apply steady_refl; auto.
    eapply steady_trans; [apply Hm | apply Hf]. }
  assert (Hp : forall st0 entry, steady st0 (inject_package context st0 entry)).
  { intros st0 [pkg_name pkg_node]. unfold inject_package.
    eapply steady_trans; [apply install_steady|]. apply fold_left_steady. apply Hs. }
  assert (Hn : forall st0 entry, steady st0 (inject_strux_namespace context st0 entry)).
  { intros st0 [ns node]. unfold inject_strux_namespace.
    destruct (json_object_has_member _ "methods"); [|apply install_steady].
    eapply steady_trans; [apply install_steady|].
    apply fold_left_steady. intros. apply install_steady. }
  unfold inject_schema.
  eapply steady_trans; [apply install_steady|].
  eapply steady_trans; [apply (fold_left_steady _ bindings Hp)|].
  destruct (json_object_has_member bindings "strux"); [|apply steady_refl].
  eapply steady_trans; [apply install_steady|]. apply fold_left_steady. apply Hn.
Qed.

Lemma inject_bindings_steady (context : JSCContext) (st : Bridge) :
  steady st (inject_bindings host context st).
Proof.
  unfold inject_bindings.
  pose proof (send_ipc_message_sync_steady
                (json_generator_to_data host get_bindings_request) st) as H.
  destruct (send_ipc_message_sync host _ st) as [response st1]. cbn in H.
  destruct response as [response|]; [|exact H].
  destruct (json_parser_load_from_data host response) as [root|]; [|exact H].
  destruct (json_object_has_member (json_node_get_object root) "result"); [|exact H].
  eapply steady_trans; [exact H | apply inject_schema_steady].
Qed.

Lemma js_call_go_method_steady (name : string) (args : list JSCValue)
    (context : JSCContext) (st : Bridge) :
  steady st (snd (js_call_go_method host name args context st)) /\
  fst (js_call_go_method host name args context st) = JSPromise (js_promises st) /\
  S (js_promises st) <= js_promises (snd (js_call_go_method host name args context st)).
Proof.
  unfold js_call_go_method, next_call_id. cbn.
  set (st1 := set_js_promises _ _).
  pose proof (send_ipc_message_async_steady
                (json_generator_to_data host
                   (call_envelope (pretty (call_counter st)) name args))
                (pretty (call_counter st))
                (JSFunction (PromiseResolve (js_promises st)))
                (JSFunction (PromiseReject (js_promises st))) context st1) as H.
  assert (H1 : steady st st1).
  { subst st1. steady_fields. intros _. apply N.mod_upper_bound. discriminate. }
  split; [exact (steady_trans _ _ _ H1 H)|]. split; [reflexivity|].
  destruct H as (_ & _ & _ & Hp). exact Hp.
Qed.

Lemma handle_steady (i : Input) (st : Bridge) : steady st (handle host i st).
Proof.
  destruct i as [u args c|data c|data v c|res|c]; cbn [handle].
  - apply js_call_go_method_steady.
  - apply get_field_value_steady.
  - apply field_setter_callback_steady.
  - unfold complete_read. destruct (async_reads st) as [|ctx rest];
      [apply steady_refl|].
    eapply steady_trans; [|apply async_read_callback_steady]. steady_fields.
  - unfold window_object_cleared_callback.
    eapply steady_trans; [|apply inject_bindings_steady].
    steady_fields.
Qed.

Lemma run_steady (inputs : list Input) : forall st, steady st (run host inputs st).
Proof.
  induction inputs as [|i inputs IH]; intros st; cbn.
  - apply steady_refl.
  - eapply steady_trans; [apply handle_steady | apply IH].
Qed.

End Steady.

Section Lifetime.

Variable host : Host.

(** X4.  Neither connection is ever closed: over any run, a channel that
    is connected stays connected, whatever fails on it. *)
Theorem connections_stay_open (inputs : list Input) (st : Bridge) :
  Bool.le (sync_connection st) (sync_connection (run host inputs st)) /\
  Bool.le (async_connection st) (async_connection (run host inputs st)).
Proof.
  destruct (run_steady host inputs st) as (Hs & Ha & _). split; assumption.
Qed.

Lemma skip_ids_counter (k : N) (st : Bridge) :
  call_counter (skip_ids k st) = ((call_counter st + k) mod 2 ^ 32)%N \/
  (k = 0%N /\ call_counter (skip_ids k st) = call_counter st).
Proof.
  unfold skip_ids. induction k as [|k IH] using N.peano_ind.
  - right. auto.
  - rewrite N.iter_succ. cbn [next_call_id snd call_counter set_call_counter] in *.
    left. destruct IH as [IH|[-> IH]]; rewrite IH.
    + rewrite N.Div0.add_mod_idemp_l. f_equal. lia.
    + reflexivity.
Qed.

(** X5.  The call counter is a 32-bit counter in every state of a run
    from the initial state; the ids drawn from it are its decimal
    renderings, so an id differs from each of the 2^32 - 1 ids drawn
    after it, and the 2^32-th is the same id again. *)
Theorem call_ids_repeat_after_2_32 (inputs : list Input) (input : list ascii) (k : N) :
  let st := run host inputs (initial input) in
  (call_counter st < 2 ^ 32)%N /\
  ((0 < k < 2 ^ 32)%N -> fst (next_call_id (skip_ids k st)) <> fst (next_call_id st)) /\
  fst (next_call_id (skip_ids (2 ^ 32) st)) = fst (next_call_id st).
Proof.
  cbn zeta. generalize (run_steady host inputs (initial input)).
  generalize (run host inputs (initial input)). intros st (_ & _ & Hc & _).
  assert (Hlt : (call_counter st < 2 ^ 32)%N) by (apply Hc; reflexivity).
  clear Hc. split; [exact Hlt|]. unfold next_call_id. cbn [fst]. split.
  - intros Hk Heq. apply (inj pretty) in Heq.
    destruct (skip_ids_counter k st) as [Hc|[-> _]]; [|lia].
    rewrite Hc in Heq. clear Hc.
    destruct (N.lt_ge_cases (call_counter st + k) (2 ^ 32)) as [Hsmall|Hbig].
    + rewrite N.mod_small in Heq by exact Hsmall. lia.
    + assert (Hmod : ((call_counter st + k) mod 2 ^ 32
                      = call_counter st + k - 2 ^ 32)%N).
      { symmetry. apply (N.mod_unique _ _ 1); lia. }
      rewrite Hmod in Heq. lia.
  - destruct (skip_ids_counter (2 ^ 32) st) as [Hc|[Hz _]]; [|discriminate Hz].
    rewrite Hc. rewrite <- N.Div0.add_mod_idemp_r, N.Div0.mod_same, N.add_0_r.
    rewrite N.mod_small by exact Hlt. reflexivity.
Qed.

(** X6.  Two stub calls never return the same promise, whatever happens
    between them: each call makes a new promise and hands out its two
    continuations. *)
Theorem stub_calls_return_new_promises (args args' : list JSCValue) (u u' : string)
    (c c' : JSCContext) (inputs : list Input) (st : Bridge) :
  let first := go_method_callback_variadic host args u c st in
  let second := go_method_callback_variadic host args' u' c' (run host inputs (snd first)) in
  fst first = JSPromise (js_promises st) /\ fst second <> fst first.
Proof.
  cbn zeta. unfold go_method_callback_variadic.
  destruct (js_call_go_method_steady host u args c st) as (_ & Hp & Hgrow).
  destruct (js_call_go_method_steady host u' args' c'
              (run host inputs (snd (js_call_go_method host u args c st))))
    as (_ & Hp' & _).
  destruct (run_steady host inputs (snd (js_call_go_method host u args c st)))
    as (_ & _ & _ & Hrun).
  split; [exact Hp|]. rewrite Hp, Hp'.
  generalize dependent
    (js_promises (run host inputs (snd (js_call_go_method host u args c st)))).
  generalize dependent (js_promises (snd (js_call_go_method host u args c st))).
  intros n1 Hgrow n2 _ Hrun [= Heq]. lia.
Qed.

(** X7.  While a request is in flight, submitting requests does no I/O
    and touches nothing but the queue: they are appended to it in the
    order of submission. *)
Theorem requests_queue_behind_the_one_in_flight (reqs : list AsyncRequest)
    (st : Bridge) :
  async_inflight st = true ->
  enqueue_all host reqs st = set_async_queue (async_queue st ++ reqs) st.
Proof.
  revert st. induction reqs as [|req rs IH]; intros st Hi.
  - cbn. rewrite app_nil_r. now destruct st.
  - cbn [enqueue_all fold_left].
    assert (Hstep : enqueue host req st = set_async_queue (async_queue st ++ [req]) st).
    { destruct req. unfold enqueue, send_ipc_message_async. cbn. now rewrite Hi. }
    fold (enqueue_all host rs (enqueue host req st)). rewrite Hstep.
    rewrite IH by exact Hi. cbn. now rewrite <- app_assoc.
Qed.

(** X8.  With an endpoint that refuses every connection, draining a
    queue of K requests makes exactly K connect attempts, one for each
    request, and attempts no write. *)
Theorem drain_retries_connect_per_request (st : Bridge) :
  async_inflight st = false -> async_connection st = false ->
  (forall n, connect_ok host n = false) ->
  connect_attempts (start_next_async_request host st)
    = connect_attempts st + length (async_queue st) /\
  write_attempts (start_next_async_request host st) = write_attempts st /\
  async_connection (start_next_async_request host st) = false.
Proof.
  intros Hi Hc Hall. remember (async_queue st) as q eqn:Hq. symmetry in Hq.
  revert st Hi Hc Hq. induction q as [|req rest IH]; intros st Hi Hc Hq.
  - rewrite (start_next_empty host st Hq). cbn. repeat split; auto.
  - rewrite (start_next_connect_failed host st req rest Hi Hq Hc (Hall _)).
    match goal with |- context [start_next_async_request host ?s] => set (st1 := s) end.
    destruct (IH st1) as (Ha & Hw & Hc'); try reflexivity; [exact Hc|].
    rewrite Ha, Hw, Hc'. cbn. repeat split; lia.
Qed.

End Lifetime.

Section FieldAccess.

Variable host : Host.

(** X9.  [null] and [undefined] can be assigned to no field, whatever
    its declared type: the setter throws, naming the kind [unknown], and
    makes no call. *)
Theorem null_and_undefined_are_never_assignable (data : FieldUserData)
    (context : JSCContext) (st : Bridge) :
  let thrown :=
    jsc_context_throw_exception context
      ("TypeError: Cannot assign to field '" +:+ field_name data +:+
       "': expected " +:+ field_type data +:+ " but got unknown") st in
  field_setter_callback host JSNull data context st = thrown /\
  field_setter_callback host JSUndefined data context st = thrown.
Proof.
  cbn zeta. unfold field_setter_callback, type_valid.
  destruct (String.eqb (field_type data) "string"),
    (is_numeric_type (field_type data)), (String.eqb (field_type data) "bool");
    split; reflexivity.
Qed.

(** X10.  The value of a field of a complex declared type is never
    transmitted: a value the setter accepts for such a type (an object,
    an array, a function) is sent as JSON [null]. *)
Theorem complex_field_is_sent_as_null (value : JSCValue) (data : FieldUserData)
    (context : JSCContext) (st : Bridge) :
  complex_type (field_type data) ->
  type_valid (field_type data) value = true ->
  sync_channel_up host st = true ->
  trace (field_setter_callback host value data context st) =
    trace st ++
    [SyncWritten
       (json_generator_to_data host
          (JsonNodeObject
             [ ("id", JsonNodeValue (GString (pretty (call_counter st))));
               ("method", JsonNodeValue (GString "__setField"));
               ("params", JsonNodeArray [JsonNodeValue (GString (field_name data));
                                         JsonNodeNull]) ])
        +:+ String "010"%char "")].
Proof.
  intros (Hs & Hn & Hb) Hv Hup.
  assert (Hnull : json_of_argument value = JsonNodeNull).
  { unfold type_valid in Hv.
    destruct (String.eqb_spec (field_type data) "string") as [E|_]; [contradiction|].
    rewrite Hn in Hv.
    destruct (String.eqb_spec (field_type data) "bool") as [E|_]; [contradiction|].
    destruct value; cbn in Hv; try discriminate; reflexivity. }
  unfold field_setter_callback. rewrite Hv. cbn [negb].
  rewrite set_field_value_is_one_call.
  pose proof (send_ipc_message_sync_effect host
                (json_generator_to_data host
                   (set_field_request (pretty (call_counter st))
                      (field_name data) value))
                (snd (next_call_id st))) as (_ & _ & Ht).
  change (sync_channel_up host (snd (next_call_id st)))
    with (sync_channel_up host st) in Ht.
  rewrite Hup in Ht. rewrite Ht. unfold set_field_request. rewrite Hnull. reflexivity.
Qed.

(** What a field read does to the counter, the trace and the table of
    pending exceptions apart. *)
Lemma get_field_value_effect (name : string) (context : JSCContext) (st : Bridge) :
  let st' := snd (get_field_value host name context st) in
  call_counter st' = ((call_counter st + 1) mod 2 ^ 32)%N /\
  trace st' =
    trace st ++
    (if sync_channel_up host st
     then [SyncWritten
             (json_generator_to_data host
                (get_field_request (pretty (call_counter st)) name)
              +:+ String "010"%char "")]
     else []).
Proof.
  cbn zeta.
  pose proof (send_ipc_message_sync_effect host
                (json_generator_to_data host
                   (get_field_request (pretty (call_counter st)) name))
                (snd (next_call_id st))) as (_ & Hc & Ht).
  change (sync_channel_up host (snd (next_call_id st)))
    with (sync_channel_up host st) in Ht.
  destruct (send_ipc_message_sync host
              (json_generator_to_data host
                 (get_field_request (pretty (call_counter st)) name))
              (snd (next_call_id st))) as [response st1] eqn:Hsend.
  cbn [snd] in Hc, Ht. cbn in Hc, Ht.
  rewrite (get_field_value_unfold host name context st st1 response Hsend).
  assert (Hparse : forall text,
             call_counter (snd (call_json_parse host context text st1))
               = call_counter st1 /\
             trace (snd (call_json_parse host context text st1)) = trace st1).
  { intros text. unfold call_json_parse. destruct (JSON_parse host text); cbn; auto. }
  destruct response as [line|]; [|cbn; auto].
  destruct (json_parser_load_from_data host line) as [root|]; [|cbn; auto].
  destruct (json_object_get_member (json_node_get_object root) "result")
    as [node|]; [|cbn; auto].
  destruct node as [|v|elements|members]; cbn [snd]; auto.
  - destruct v; cbn; auto.
  - destruct (Hparse (json_generator_to_data host (JsonNodeArray elements)))
      as [H1 H2]. rewrite H1, H2. auto.
  - destruct (Hparse (json_generator_to_data host (JsonNodeObject members)))
      as [H1 H2]. rewrite H1, H2. auto.
Qed.

(** X11.  A field read that gets no usable response (the sync call
    failed, the line does not parse, or the response has no [result]
    member) yields [undefined] and throws nothing. *)
Theorem field_read_without_result_is_undefined (name : string)
    (context : JSCContext) (st st1 : Bridge) (response : option string) :
  send_ipc_message_sync host
    (json_generator_to_data host (get_field_request (pretty (call_counter st)) name))
    (snd (next_call_id st)) = (response, st1) ->
  match response with
  | None => True
  | Some line =>
      match json_parser_load_from_data host line with
      | None => True
      | Some root =>
          json_object_has_member (json_node_get_object root) "result" = false
      end
  end ->
  get_field_value host name context st = (JSUndefined, st1) /\
  js_exception st1 = js_exception st.
Proof.
  intros Hsend Hno. split.
  - rewrite (get_field_value_unfold host name context st st1 response Hsend).
    destruct response as [line|]; [|reflexivity].
    destruct (json_parser_load_from_data host line) as [root|]; [|reflexivity].
    unfold json_object_has_member in Hno.
    destruct (json_object_get_member (json_node_get_object root) "result");
      [discriminate|reflexivity].
  - pose proof (send_ipc_message_sync_effect host
                  (json_generator_to_data host
                     (get_field_request (pretty (call_counter st)) name))
                  (snd (next_call_id st))) as (He & _).
    rewrite Hsend in He. exact He.
Qed.

(** X12.  Field reads are not cached: with an endpoint that is up, two
    reads of a field in a row write two [__getField] requests, with
    consecutive call ids. *)
Theorem field_reads_are_not_cached (name : string) (context : JSCContext)
    (st : Bridge) :
  (forall n, connect_ok host n = true) -> (forall n, write_ok host n = true) ->
  let st1 := snd (get_field_value host name context st) in
  let st2 := snd (get_field_value host name context st1) in
  let id1 := pretty (call_counter st) in
  let id2 := pretty ((call_counter st + 1) mod 2 ^ 32)%N in
  trace st2 =
    trace st ++
    [SyncWritten (json_generator_to_data host (get_field_request id1 name)
                  +:+ String "010"%char "");
     SyncWritten (json_generator_to_data host (get_field_request id2 name)
                  +:+ String "010"%char "")].
Proof.
  intros Hconn Hwrite. cbn zeta.
  assert (Hup : forall s, sync_channel_up host s = true).
  { intros s. unfold sync_channel_up. rewrite Hconn, Hwrite. now rewrite orb_true_r. }
  destruct (get_field_value_effect name context st) as [Hc1 Ht1].
  destruct (get_field_value_effect name context
              (snd (get_field_value host name context st))) as [_ Ht2].
  rewrite Hup in Ht1, Ht2. rewrite Ht2, Ht1, Hc1, <- app_assoc. reflexivity.
Qed.

End FieldAccess.

Section Schema.

Variable host : Host.

(** X13.  For every method declared in a namespace of the reserved
    [strux] member of the schema, the stub installed at
    [strux.<namespace>.<method>] captures the qualified name
    [strux.<namespace>.<method>]. *)
Theorem strux_stub_captures_qualified_name (context : JSCContext)
    (bindings : list (string * JsonNode)) (st : Bridge)
    (ns : string) (strux_node ns_node method_info : JsonNode)
    (methods : list JsonNode) :
  json_object_get_member bindings "strux" = Some strux_node ->
  In (ns, ns_node) (json_node_get_object strux_node) ->
  json_object_get_member (json_node_get_object ns_node) "methods"
    = Some (JsonNodeArray methods) ->
  In method_info methods ->
  let name := json_object_get_string_member (json_node_get_object method_info) "name" in
  In (context, ["strux"; ns; name], MethodStub ("strux." +:+ ns +:+ "." +:+ name))
     (js_installed (inject_schema context bindings st)).
Proof.
  intros Hstrux Hns Hmethods Hinfo. cbn zeta. unfold inject_schema.
  assert (Hhas : json_object_has_member bindings "strux" = true)
    by (unfold json_object_has_member; now rewrite Hstrux).
  assert (Hobj : json_object_get_object_member bindings "strux"
                 = json_node_get_object strux_node)
    by (unfold json_object_get_object_member; now rewrite Hstrux).
  rewrite Hhas, Hobj.
  apply (fold_left_installs _ _ (ns, ns_node));
    [intros; apply inject_strux_namespace_extends | exact Hns |].
  intros st0. unfold inject_strux_namespace.
  assert (Hhasm : json_object_has_member (json_node_get_object ns_node) "methods" = true)
    by (unfold json_object_has_member; now rewrite Hmethods).
  assert (Harr : json_object_get_array_member (json_node_get_object ns_node) "methods"
                 = methods)
    by (unfold json_object_get_array_member; now rewrite Hmethods).
  rewrite Hhasm, Harr. unfold inject_strux_methods.
  apply (fold_left_installs _ methods method_info);
    [intros; apply install_extends | exact Hinfo |].
  intros st1. apply install_In.
Qed.

(** X14.  For every field declared in a struct of a namespace of the
    schema, an accessor pair is installed at
    [go.<namespace>.<struct>.<field>] that captures the name and the
    declared type of the field. *)
Theorem field_accessor_is_installed (context : JSCContext)
    (bindings : list (string * JsonNode)) (st : Bridge)
    (pkg struct : string) (pkg_node struct_node field_info : JsonNode)
    (fields : list JsonNode) :
  In (pkg, pkg_node) bindings ->
  In (struct, struct_node) (json_node_get_object pkg_node) ->
  json_object_get_member (json_node_get_object struct_node) "fields"
    = Some (JsonNodeArray fields) ->
  In field_info fields ->
  let name := json_object_get_string_member (json_node_get_object field_info) "name" in
  let type := json_object_get_string_member (json_node_get_object field_info) "type" in
  In (context, ["go"; pkg; struct; name], FieldAccessor name type)
     (js_installed (inject_schema context bindings st)).
Proof.
  intros Hpkg Hstruct Hfields Hinfo. cbn zeta. unfold inject_schema.
  assert (Hgo : In (context,
                    ["go"; pkg; struct;
                     json_object_get_string_member (json_node_get_object field_info)
                       "name"],
                    FieldAccessor
                      (json_object_get_string_member (json_node_get_object field_info)
                         "name")
                      (json_object_get_string_member (json_node_get_object field_info)
                         "type"))
                   (js_installed
                      (fold_left (inject_package context) bindings
                         (install context ["go"] ProxyObject st)))).
  { apply (fold_left_installs _ bindings (pkg, pkg_node));
      [intros; apply inject_package_extends | exact Hpkg |].
    intros st0. unfold inject_package.
    apply (fold_left_installs _ _ (struct, struct_node));
      [intros; apply inject_struct_extends | exact Hstruct |].
    intros st1. unfold inject_struct.
    assert (Hhas : json_object_has_member (json_node_get_object struct_node) "fields"
                   = true)
      by (unfold json_object_has_member; now rewrite Hfields).
    assert (Harr : json_object_get_array_member (json_node_get_object struct_node)
                     "fields" = fields)
      by (unfold json_object_get_array_member; now rewrite Hfields).
    rewrite Hhas, Harr. unfold inject_fields.
    apply (fold_left_installs _ fields field_info);
      [intros; apply install_extends | exact Hinfo |].
    intros st2. unfold inject_field_property. apply install_In. }
  destruct (json_object_has_member bindings "strux"); [|exact Hgo].
  eapply extends_In; [|exact Hgo].
  eapply extends_trans; [apply install_extends|].
  apply fold_left_extends. intros. apply inject_strux_namespace_extends.
Qed.

Lemma installs_only_refl (P : JSCContext * list string * Property -> Prop)
    (st : Bridge) : installs_only P st st.
Proof. exists []. split; [now rewrite app_nil_r | constructor]. Qed.

Lemma installs_only_trans (P : JSCContext * list string * Property -> Prop)
    (a b c : Bridge) :
  installs_only P a b -> installs_only P b c -> installs_only P a c.
Proof.
  intros (l & Hl & Hf) (l' & Hl' & Hf'). exists (l ++ l'). split.
  - rewrite Hl', Hl, <- app_assoc. reflexivity.
  - apply Forall_app; auto.
Qed.

Lemma install_only (P : JSCContext * list string * Property -> Prop)
    (context : JSCContext) (path : list string) (p : Property) (st : Bridge) :
  P (context, path, p) -> installs_only P st (install context path p st).
Proof. intros HP. exists [(context, path, p)]. split; [reflexivity|]. now constructor. Qed.

Lemma fold_left_installs_only {A : Type}
    (P : JSCContext * list string * Property -> Prop)
    (f : Bridge -> A -> Bridge) (l : list A) :
  (forall st x, installs_only P st (f st x)) ->
  forall st, installs_only P st (fold_left f l st).
Proof.
  intros Hf. induction l as [|x l IH]; intros st; cbn.
  - apply installs_only_refl.
  - eapply installs_only_trans; [apply Hf | apply IH].
Qed.

Lemma inject_schema_installs_only (context : JSCContext)
    (bindings : list (string * JsonNode)) (st : Bridge) :
  installs_only (proxy_entry context) st (inject_schema context bindings st).
Proof.
  assert (Hgo : forall rest p st0,
             installs_only (proxy_entry context) st0
               (install context ("go" :: rest) p st0)).
  { intros. apply install_only. split; [reflexivity|]. exists "go", rest. auto. }
  assert (Hstrux : forall rest p st0,
             installs_only (proxy_entry context) st0
               (install context ("strux" :: rest) p st0)).
  { intros. apply install_only. split; [reflexivity|]. exists "strux", rest. auto. }
  assert (Hs : forall pkg st0 entry,
             installs_only (proxy_entry context) st0
               (inject_struct context pkg st0 entry)).
  { intros pkg st0 [struct_name struct_node]. unfold inject_struct.
    assert (Hm : forall object methods s, object = ["go"; pkg; struct_name] ->
               installs_only (proxy_entry context) s
                 (inject_methods context object methods s)).
    { intros object methods s ->. apply fold_left_installs_only. intros. apply Hgo. }
    assert (Hf : forall object fields s, object = ["go"; pkg; struct_name] ->
               installs_only (proxy_entry context) s
                 (inject_fields context object fields s)).
    { intros object fields s ->. apply fold_left_installs_only. intros. apply Hgo. }
    eapply installs_only_trans; [apply Hgo|].
    destruct (json_object_has_member (json_node_get_object struct_node) "methods");
      destruct (json_object_has_member (json_node_get_object struct_node) "fields");
      try apply installs_only_refl; try (apply Hm; reflexivity);
      try (apply Hf; reflexivity).
    eapply installs_only_trans; [apply Hm | apply Hf]; reflexivity. }
  assert (Hp : forall st0 entry,
             installs_only (proxy_entry context) st0
               (inject_package context st0 entry)).
  { intros st0 [pkg_name pkg_node]. unfold inject_package.
    eapply installs_only_trans; [apply Hgo|].
    apply fold_left_installs_only. apply Hs. }
  assert (Hn : forall st0 entry,
             installs_only (proxy_entry context) st0
               (inject_strux_namespace context st0 entry)).
  { intros st0 [ns node]. unfold inject_strux_namespace.
    destruct (json_object_has_member _ "methods"); [|apply Hstrux].
    eapply installs_only_trans; [apply Hstrux|].
    apply fold_left_installs_only. intros. apply Hstrux. }
  unfold inject_schema.
  eapply installs_only_trans; [apply Hgo|].
  eapply installs_only_trans; [apply (fold_left_installs_only _ _ bindings Hp)|].
  destruct (json_object_has_member bindings "strux"); [|apply installs_only_refl].
  eapply installs_only_trans; [apply Hstrux|].
  apply fold_left_installs_only. apply Hn.
Qed.

Lemma find_property_outside (context c : JSCContext) (path : list string)
    (newer older : list (JSCContext * list string * Property)) :
  Forall (proxy_entry context) newer -> outside_proxies context c path ->
  find_property c path (newer ++ older) = find_property c path older.
Proof.
  intros Hnew Hout. induction Hnew as [|[[c0 assigned] p] newer He Hnew IH];
    [reflexivity|].
  destruct He as (Hc & root & rest & Hpath & Hroot). cbn in Hc, Hpath. subst c0 assigned.
  cbn [app find_property]. case_bool_decide as Hctx; [|exact IH]. subst c.
  destruct Hout as [Hout|Hout]; [now destruct Hout|].
  assert (Hno : ~ (root :: rest) `prefix_of` path).
  { intros [k ->]. cbn in Hout. destruct Hout as [Hgo Hstrux].
    destruct Hroot; congruence. }
  rewrite bool_decide_eq_false_2; [|intros <-; apply Hno; reflexivity].
  rewrite bool_decide_eq_false_2 by exact Hno. exact IH.
Qed.

(** X15.  When the backend answers [__getBindings] with a schema the
    loops can iterate, the binding generator changes the object graphs
    only under the [go] and the [strux] object of the context it was
    called for: every property of another context, and every property
    of this one that is not under one of the two, is found as it was
    before.  The call counter is left alone (the schema request has the
    fixed id 0). *)
Theorem bindings_stay_under_go_and_strux (context : JSCContext) (st : Bridge) :
  iterable host
    (fst (send_ipc_message_sync host
            (json_generator_to_data host get_bindings_request) st)) ->
  (forall c path, outside_proxies context c path ->
     lookup_property c path (inject_bindings host context st)
       = lookup_property c path st) /\
  call_counter (inject_bindings host context st) = call_counter st.
Proof.
  intros _.
  assert (Hgraph : forall st', installs_only (proxy_entry context) st st' ->
            forall c path, outside_proxies context c path ->
              lookup_property c path st' = lookup_property c path st).
  { intros st' (l & Hl & Hf) c path Hout. unfold lookup_property.
    rewrite Hl, rev_app_distr. apply (find_property_outside context); [|exact Hout].
    now apply Forall_rev. }
  cut (installs_only (proxy_entry context) st (inject_bindings host context st) /\
       call_counter (inject_bindings host context st) = call_counter st).
  { intros [Hi Hc]. split; [exact (Hgraph _ Hi) | exact Hc]. }
  clear Hgraph. unfold inject_bindings.
  pose proof (send_ipc_message_sync_effect host
                (json_generator_to_data host get_bindings_request) st) as (_ & Hc & _).
  assert (Hi : js_installed
                 (snd (send_ipc_message_sync host
                         (json_generator_to_data host get_bindings_request) st))
               = js_installed st).
  { unfold send_ipc_message_sync, connect_sync_ipc, g_output_stream_write_all.
    destruct (sync_connection st); cbn;
      [|destruct (connect_ok host (connect_attempts st)); cbn];
      try (destruct (write_ok host (write_attempts st)); cbn);
      try (destruct (read_until_newline (sync_input st) "") as [r i]; cbn);
      reflexivity. }
  destruct (send_ipc_message_sync host _ st) as [response st1]. cbn [snd] in Hc, Hi.
  assert (Hnone : installs_only (proxy_entry context) st st1).
  { exists []. split; [now rewrite app_nil_r | constructor]. }
  assert (Hcount : forall bindings,
             call_counter (inject_schema context bindings st1) = call_counter st1).
  { intros bindings.
    assert (Hfold : forall (A : Type) (f : Bridge -> A -> Bridge) (l : list A),
               (forall s x, call_counter (f s x) = call_counter s) ->
               forall s, call_counter (fold_left f l s) = call_counter s).
    { intros A f l Hf. induction l as [|x l IH]; intros s; cbn; [reflexivity|].
      now rewrite IH, Hf. }
    assert (Hs : forall pkg s entry,
               call_counter (inject_struct context pkg s entry) = call_counter s).
    { intros pkg s [struct_name struct_node]. unfold inject_struct.
      destruct (json_object_has_member _ "methods");
        destruct (json_object_has_member _ "fields");
        unfold inject_methods, inject_fields;
        rewrite ?Hfold by (intros; reflexivity); reflexivity. }
    assert (Hn : forall s entry,
               call_counter (inject_strux_namespace context s entry) = call_counter s).
    { intros s [ns node]. unfold inject_strux_namespace.
      destruct (json_object_has_member _ "methods"); [|reflexivity].
      unfold inject_strux_methods. rewrite Hfold by (intros; reflexivity).
      reflexivity. }
    unfold inject_schema.
    destruct (json_object_has_member bindings "strux").
    - rewrite Hfold by exact Hn. cbn.
      rewrite Hfold; [reflexivity|]. intros s [pkg_name pkg_node].
      unfold inject_package. now rewrite Hfold by (apply Hs).
    - rewrite Hfold; [reflexivity|]. intros s [pkg_name pkg_node].
      unfold inject_package. now rewrite Hfold by (apply Hs). }
  destruct response as [response|]; [|split; [exact Hnone | exact Hc]].
  destruct (json_parser_load_from_data host response) as [root|];
    [|split; [exact Hnone | exact Hc]].
  destruct (json_object_has_member (json_node_get_object root) "result");
    [|split; [exact Hnone | exact Hc]].
  split.
  - eapply installs_only_trans; [exact Hnone | apply inject_schema_installs_only].
  - rewrite Hcount. exact Hc.
Qed.

(** X16.  When the schema cannot be fetched (the sync call fails, the
    line does not parse, or the response has no [result] member), the
    binding generator installs nothing: neither [go] nor [strux] exists
    in the new context. *)
Theorem bindings_need_a_schema (context : JSCContext) (st st1 : Bridge)
    (response : option string) :
  send_ipc_message_sync host (json_generator_to_data host get_bindings_request) st
    = (response, st1) ->
  match response with
  | None => True
  | Some line =>
      match json_parser_load_from_data host line with
      | None => True
      | Some root =>
          json_object_has_member (json_node_get_object root) "result" = false
      end
  end ->
  inject_bindings host context st = st1 /\ js_installed st1 = js_installed st.
Proof.
  intros Hsend Hno. split.
  - unfold inject_bindings. rewrite Hsend.
    destruct response as [line|]; [|reflexivity].
    destruct (json_parser_load_from_data host line) as [root|]; [|reflexivity].
    now rewrite Hno.
  - revert Hsend.
    unfold send_ipc_message_sync, connect_sync_ipc, g_output_stream_write_all.
    destruct (sync_connection st); cbn;
      [|destruct (connect_ok host (connect_attempts st)); cbn];
      try (destruct (write_ok host (write_attempts st)); cbn);
      try (destruct (read_until_newline (sync_input st) "") as [r i]; cbn);
      intros [= _ <-]; reflexivity.
Qed.

(** X17.  A context reset does not cancel the line read in flight: the
    read is still outstanding after the reset, while the table is
    empty.  When a read completes whose request is not in the table, no
    continuation is called; a failed read changes nothing, but a reply
    line clears the in-flight flag and restarts the queue whatever the
    flag was.  Right after the reset that only consumes the read; once a
    newer request is in flight and another is queued, the queued one is
    written as well. *)
Theorem reply_after_reset_is_dropped (context : JSCContext) (st : Bridge) :
  let st1 := window_object_cleared_callback host context st in
  (async_reads st1 = async_reads st /\ pending_promises st1 = ∅ /\
   forall res, complete_read host res st1 = set_async_reads (tail (async_reads st)) st1) /\
  (forall ctx res s, pending_promises s !! read_call_id ctx = None ->
     async_read_callback host ctx res s =
       match res with
       | ReadLine _ => start_next_async_request host (set_async_inflight false s)
       | _ => s
       end) /\
  (forall ctx line s req rest,
     pending_promises s !! read_call_id ctx = None ->
     async_queue s = req :: rest -> async_connection s = true ->
     write_ok host (write_attempts s) = true ->
     let s' := async_read_callback host ctx (ReadLine line) s in
     async_inflight s' = true /\ async_queue s' = rest /\
     async_reads s' = async_reads s ++ [{| read_call_id := req_call_id req |}] /\
     trace s' = trace s ++ [AsyncWritten req]).
Proof.
  cbn zeta.
  assert (Hstale : forall ctx res s, pending_promises s !! read_call_id ctx = None ->
            async_read_callback host ctx res s =
              match res with
              | ReadLine _ => start_next_async_request host (set_async_inflight false s)
              | _ => s
              end).
  { intros ctx res s Hnone. unfold async_read_callback. rewrite Hnone.
    destruct res as [line| |message]; try reflexivity.
    now destruct (json_parser_load_from_data host line). }
  split; [|split; [exact Hstale|]].
  - unfold window_object_cleared_callback.
    assert (H : sync_only (clear_async_state context st)
                  (inject_bindings host context
                     (inject_console_interceptors context
                        (clear_async_state context st)))).
    { eapply sync_only_trans;
        [apply inject_console_interceptors_frame | apply inject_bindings_frame]. }
    destruct H as (Hi & Hq & Hr & Hp & _).
    generalize dependent (inject_bindings host context
                            (inject_console_interceptors context
                               (clear_async_state context st))).
    intros st1 Hi Hq Hr Hp. cbn in Hi, Hq, Hr, Hp.
    split; [exact Hr|]. split; [exact Hp|]. intros res.
    unfold complete_read. rewrite Hr.
    destruct (async_reads st) as [|ctx rest]; cbn [tail].
    + destruct st1; cbn in *; subst; reflexivity.
    + assert (Hnone : pending_promises (set_async_reads rest st1) !! read_call_id ctx
                      = None) by (cbn; rewrite Hp; apply lookup_empty).
      assert (Hsame : set_async_inflight false (set_async_reads rest st1)
                      = set_async_reads rest st1)
        by (destruct st1; cbn in *; subst; reflexivity).
      rewrite (Hstale ctx res _ Hnone).
      destruct res as [line| |message]; try reflexivity.
      rewrite Hsame. apply start_next_empty; cbn; exact Hq.
  - intros ctx line s req rest Hnone Hq Hc Hw.
    rewrite (Hstale ctx (ReadLine line) s Hnone).
    rewrite start_next_async_request_unfold. unfold start_next_body. cbn.
    rewrite Hq. unfold connect_async_ipc, g_output_stream_write_all. cbn.
    rewrite Hc. cbn. rewrite Hw. cbn. auto.
Qed.

End Schema.

Section Settlement.

Variable host : Host.

Lemma settled_app (tr tr' : list Event) : settled (tr ++ tr') = settled tr ++ settled tr'.
Proof.
  induction tr as [|e tr IH]; [reflexivity|].
  destruct e; cbn; rewrite IH; reflexivity.
Qed.

Lemma pending_ids_insert (m : gmap string PendingPromise) (k : string)
    (v : PendingPromise) :
  pending_ids (<[k:=v]> m) ≡ₚ promise_of (promise_resolve v) :: pending_ids (delete k m).
Proof.
  unfold pending_ids. rewrite <- insert_delete_eq.
  rewrite map_to_list_insert by apply lookup_delete_eq. reflexivity.
Qed.

Lemma pending_ids_lookup (m : gmap string PendingPromise) (k : string)
    (v : PendingPromise) :
  m !! k = Some v ->
  pending_ids m ≡ₚ promise_of (promise_resolve v) :: pending_ids (delete k m).
Proof.
  intros H. unfold pending_ids. rewrite <- (map_to_list_delete m k v H). reflexivity.
Qed.

Lemma pending_ids_delete (m : gmap string PendingPromise) (k : string) :
  pending_ids (delete k m) ⊆+ pending_ids m.
Proof.
  destruct (m !! k) as [v|] eqn:H.
  - rewrite (pending_ids_lookup m k v H). apply submseteq_cons. reflexivity.
  - now rewrite delete_id.
Qed.

Lemma accounted_step (st st' : Bridge) :
  accounted st -> tidy st' -> live st' ⊆+ live st ->
  js_promises st <= js_promises st' -> accounted st'.
Proof.
  intros (_ & Hnd & Hlt) Htidy Hsub Hp. split; [exact Htidy|]. split.
  - apply submseteq_Permutation in Hsub as [k Hk]. rewrite Hk in Hnd.
    now apply NoDup_app in Hnd as (H & _).
  - apply Forall_forall. intros x Hx.
    assert (Hin : x ∈ live st) by (eapply elem_of_submseteq; eauto).
    rewrite Forall_forall in Hlt. specialize (Hlt x Hin). lia.
Qed.

Lemma continuation_pair_reject (resolve reject : JSCValue) :
  continuation_pair resolve reject ->
  promise_of reject = promise_of resolve /\
  forall arg, continuation_call (FunctionCall reject arg) /\
              continuation_call (FunctionCall resolve arg).
Proof.
  intros (p & -> & ->). split; [reflexivity|]. intros arg. cbn. split; eauto.
Qed.

Ltac live_sub Hid :=
  unfold queued_promises;
  rewrite ?settled_app, ?delete_insert_eq, ?fmap_cons; cbn [settled];
  rewrite ?Hid, ?app_nil_r;
  repeat match goal with
  | |- context [pending_ids (<[?k:=?v]> ?m)] =>
      rewrite (pending_ids_insert m k v); cbn [promise_resolve]
  end;
  repeat match goal with
  | |- context [pending_ids (delete ?k ?m)] =>
      let H := fresh "Hd" in
      let l := fresh "l" in
      pose proof (pending_ids_delete m k) as H;
      apply submseteq_Permutation in H as [l H];
      rewrite H; clear H;
      generalize (pending_ids (delete k m)); intro
  end;
  solve_submseteq.

Lemma start_next_depth_accounted (n : nat) :
  forall st, accounted st -> accounted (start_next_depth host n st).
Proof.
  induction n as [|n IH]; intros st Hacc; [exact Hacc|].
  cbn [start_next_depth]. unfold start_next_body.
  destruct (async_inflight st); [exact Hacc|].
  destruct (async_queue st) as [|req rest] eqn:Hq; [exact Hacc|].
  pose proof Hacc as ((Htq & Htp & Htt) & _).
  rewrite Hq in Htq. apply Forall_cons in Htq as [Hreq Hrest].
  destruct (continuation_pair_reject _ _ Hreq) as [Hid Hcall].
  assert (Htt' : forall msg, Forall continuation_call
                   (trace st ++ [FunctionCall (req_reject req) (JSString msg)])).
  { intros msg. apply Forall_app. split; [exact Htt|].
    constructor; [apply Hcall | constructor]. }
  assert (Htt'' : Forall continuation_call (trace st ++ [AsyncWritten req])).
  { apply Forall_app. split; [exact Htt|]. constructor; [exact I | constructor]. }
  assert (Hins : forall k v,
             <[req_call_id req :=
                 {| promise_resolve := req_resolve req;
                    promise_reject := req_reject req;
                    promise_context := req_context req |}]> (pending_promises st) !! k
               = Some v ->
             continuation_pair (promise_resolve v) (promise_reject v)).
  { intros k v H. apply lookup_insert_Some in H as [[_ <-]|[_ H]]; [exact Hreq|eauto]. }
  assert (Hdel : forall k v,
             delete (req_call_id req) (pending_promises st) !! k = Some v ->
             continuation_pair (promise_resolve v) (promise_reject v)).
  { intros k v H. apply lookup_delete_Some in H as [_ H]. eauto. }
  unfold connect_async_ipc, g_output_stream_write_all; cbn.
  destruct (async_connection st); cbn;
    [|destruct (connect_ok host (connect_attempts st)); cbn];
    try (destruct (write_ok host (write_attempts st)); cbn);
    try apply IH;
    (apply (accounted_step st);
     [ exact Hacc
     | unfold tidy; cbn; rewrite ?delete_insert_eq; repeat split; auto
     | unfold live; cbn; rewrite Hq; live_sub Hid
     | cbn; lia ]).
Qed.

Lemma accounted_same (st st' : Bridge) :
  async_queue st' = async_queue st -> pending_promises st' = pending_promises st ->
  trace st' = trace st -> js_promises st <= js_promises st' ->
  accounted st -> accounted st'.
Proof.
  intros Hq Hp Ht Hle Hacc. pose proof Hacc as (Htidy & _).
  apply (accounted_step st); auto.
  - unfold tidy. now rewrite Hq, Hp, Ht.
  - unfold live. now rewrite Hq, Hp, Ht.
Qed.

Lemma start_next_accounted (st : Bridge) :
  accounted st -> accounted (start_next_async_request host st).
Proof. apply start_next_depth_accounted. Qed.

Lemma async_read_callback_accounted (ctx : AsyncReadContext) (res : ReadResult)
    (st : Bridge) :
  accounted st -> accounted (async_read_callback host ctx res st).
Proof.
  intros Hacc. pose proof Hacc as ((Htq & Htp & Htt) & _).
  assert (Hsame : accounted (set_async_inflight false st))
    by (apply (accounted_same st); auto).
  assert (Hcalled : forall promise callee arg,
             pending_promises st !! read_call_id ctx = Some promise ->
             callee = promise_reject promise \/ callee = promise_resolve promise ->
             forall ex,
             accounted
               (set_async_inflight false
                  (set_pending_promises
                     (delete (read_call_id ctx) (pending_promises st))
                     (emit (FunctionCall callee arg) (set_js_exception ex st))))).
  { intros promise callee arg Hlook Hcallee ex.
    destruct (continuation_pair_reject _ _ (Htp _ _ Hlook)) as [Hid Hcall].
    apply (accounted_step st); auto.
    - unfold tidy; cbn. repeat split; auto.
      + intros k v H. apply lookup_delete_Some in H as [_ H]. eauto.
      + apply Forall_app. split; [exact Htt|].
        constructor; [|constructor]. destruct Hcallee as [->| ->]; apply Hcall.
    - unfold live; cbn. rewrite (pending_ids_lookup _ _ _ Hlook), settled_app. cbn.
      assert (Hc : promise_of callee = promise_of (promise_resolve promise))
        by (destruct Hcallee as [->| ->]; auto).
      rewrite Hc. solve_submseteq. }
  assert (Hdropped : accounted
            (set_async_inflight false
               (set_pending_promises
                  (delete (read_call_id ctx) (pending_promises st)) st))).
  { apply (accounted_step st); auto.
    - unfold tidy; cbn. repeat split; auto.
      intros k v H. apply lookup_delete_Some in H as [_ H]. eauto.
    - unfold live; cbn.
      pose proof (pending_ids_delete (pending_promises st) (read_call_id ctx)) as Hd.
      apply submseteq_Permutation in Hd as [l Hd]. rewrite Hd. solve_submseteq. }
  assert (Hid : forall s, set_js_exception (js_exception s) s = s) by now intros [].
  assert (Hflag : forall s, accounted (set_async_inflight false s) -> accounted
                    (set_async_inflight (async_inflight st) s)).
  { intros s H. apply (accounted_same (set_async_inflight false s)); auto. }
  unfold async_read_callback.
  destruct res as [line| |message].
  - apply start_next_accounted.
    destruct (json_parser_load_from_data host line) as [root|]; [|exact Hsame].
    destruct (pending_promises st !! read_call_id ctx) as [promise|] eqn:Hlook;
      [|exact Hsame].
    destruct (json_object_has_member (json_node_get_object root) "error").
    + specialize (Hcalled promise (promise_reject promise)
                    (JSString (json_object_get_string_member
                                 (json_node_get_object root) "error"))
                    eq_refl (or_introl eq_refl) (js_exception st)).
      rewrite Hid in Hcalled. exact Hcalled.
    + destruct (json_object_get_member (json_node_get_object root) "result")
        as [node|]; [|exact Hdropped].
      destruct (async_result_value_frame host (promise_context promise) node st)
        as [ex Hex].
      destruct (async_result_value host (promise_context promise) node st) as [v st1].
      cbn in Hex. subst st1.
      exact (Hcalled promise (promise_resolve promise) v eq_refl (or_intror eq_refl) ex).
  - destruct (pending_promises st !! read_call_id ctx) as [promise|] eqn:Hlook;
      [|exact Hacc].
    specialize (Hcalled promise (promise_reject promise)
                  (JSString "Failed to read response") eq_refl (or_introl eq_refl)
                  (js_exception st)).
    rewrite Hid in Hcalled. apply Hflag in Hcalled.
    revert Hcalled. now destruct st.
  - destruct (pending_promises st !! read_call_id ctx) as [promise|] eqn:Hlook;
      [|exact Hacc].
    specialize (Hcalled promise (promise_reject promise)
                  (JSString message) eq_refl (or_introl eq_refl)
                  (js_exception st)).
    rewrite Hid in Hcalled. apply Hflag in Hcalled.
    revert Hcalled. now destruct st.
Qed.

Lemma sync_writes_settle_nothing (tr : list Event) :
  Forall is_sync_write tr -> settled tr = [] /\ Forall continuation_call tr.
Proof.
  induction 1 as [|e tr He _ [IH1 IH2]]; [split; [reflexivity | constructor]|].
  destruct e; try contradiction. cbn. split; [exact IH1|]. now constructor.
Qed.

Lemma sync_only_accounted (st st' : Bridge) :
  sync_only st st' -> js_promises st <= js_promises st' ->
  accounted st -> accounted st'.
Proof.
  intros (_ & Hq & _ & Hp & tr & Ht & Hf) Hle Hacc.
  destruct (sync_writes_settle_nothing tr Hf) as [Hnil Hcalls].
  pose proof Hacc as ((Htq & Htp & Htt) & _).
  apply (accounted_step st); auto.
  - unfold tidy. rewrite Hq, Hp, Ht. repeat split; auto.
    apply Forall_app. auto.
  - unfold live. rewrite Hq, Hp, Ht, settled_app, Hnil, app_nil_r. reflexivity.
Qed.

Lemma handle_accounted (i : Input) (st : Bridge) :
  accounted st -> accounted (handle host i st).
Proof.
  intros Hacc. pose proof Hacc as ((Htq & Htp & Htt) & Hnd & Hlt).
  destruct i as [u args c|data c|data v c|res|c]; cbn [handle].
  - unfold go_method_callback_variadic, js_call_go_method, next_call_id,
      send_ipc_message_async. cbn.
    set (req := Build_AsyncRequest _ _ _ _ _).
    assert (Hnew : forall b s,
               async_queue s = async_queue st ++ [req] ->
               pending_promises s = pending_promises st -> trace s = trace st ->
               js_promises s = S (js_promises st) ->
               accounted (set_async_inflight b s)).
    { intros b s Hq Hp Ht Hn. unfold accounted, tidy, live. cbn.
      rewrite Hq, Hp, Ht, Hn. repeat split; auto.
      - apply Forall_app. split; [exact Htq|]. constructor; [|constructor].
        exists (js_promises st). split; reflexivity.
      - unfold queued_promises. rewrite fmap_app. cbn.
        assert (Hperm : ((fun r => promise_of (req_resolve r)) <$> async_queue st)
                        ++ [js_promises st]
                        ++ pending_ids (pending_promises st) ++ settled (trace st)
                        ≡ₚ js_promises st :: live st)
          by (unfold live, queued_promises; solve_Permutation).
        rewrite <- app_assoc. rewrite Hperm. apply NoDup_cons. split; [|exact Hnd].
        intros Hin. rewrite Forall_forall in Hlt. specialize (Hlt _ Hin). lia.
      - unfold queued_promises. rewrite fmap_app. cbn.
        rewrite <- app_assoc. apply Forall_app. split.
        + unfold live, queued_promises in Hlt. apply Forall_app in Hlt as [Hlt _].
          eapply Forall_impl; [exact Hlt|]. cbn. intros; lia.
        + constructor; [lia|].
          unfold live in Hlt. apply Forall_app in Hlt as [_ Hlt].
          eapply Forall_impl; [exact Hlt|]. cbn. intros; lia. }
    destruct (async_inflight st) eqn:Hi; cbn.
    + specialize (Hnew true
                    (set_async_queue (async_queue st ++ [req])
                       (set_js_promises (S (js_promises st))
                          (set_call_counter ((call_counter st + 1) mod 2 ^ 32)%N st)))
                    eq_refl eq_refl eq_refl eq_refl).
      revert Hnew. cbn. destruct st; cbn in *; subst. now intros H.
    + apply start_next_accounted.
      specialize (Hnew false
                    (set_async_queue (async_queue st ++ [req])
                       (set_js_promises (S (js_promises st))
                          (set_call_counter ((call_counter st + 1) mod 2 ^ 32)%N st)))
                    eq_refl eq_refl eq_refl eq_refl).
      revert Hnew. cbn. destruct st; cbn in *; subst. now intros H.
  - eapply sync_only_accounted; [apply get_field_value_frame| |exact Hacc].
    apply get_field_value_steady.
  - eapply sync_only_accounted; [apply field_setter_callback_frame| |exact Hacc].
    apply field_setter_callback_steady.
  - unfold complete_read. destruct (async_reads st) as [|ctx rest]; [exact Hacc|].
    apply async_read_callback_accounted.
    apply (accounted_same st); auto.
  - unfold window_object_cleared_callback.
    assert (Hc : accounted (clear_async_state c st)).
    { apply (accounted_step st); auto.
      - unfold tidy; cbn. repeat split; auto.
        + intros k v H. rewrite lookup_empty in H. discriminate.
        + apply Forall_app. split; [exact Htt|]. constructor; [exact I|constructor].
      - unfold live, pending_ids; cbn. rewrite map_to_list_empty, settled_app. cbn.
        rewrite app_nil_r. solve_submseteq. }
    eapply sync_only_accounted; [| |exact Hc].
    + eapply sync_only_trans;
        [apply inject_console_interceptors_frame | apply inject_bindings_frame].
    + destruct (inject_bindings_steady host c
                  (inject_console_interceptors c (clear_async_state c st)))
        as (_ & _ & _ & Hle). exact Hle.
Qed.

Lemma run_accounted (inputs : list Input) :
  forall st, accounted st -> accounted (run host inputs st).
Proof.
  induction inputs as [|i inputs IH]; intros st Hacc; [exact Hacc|].
  cbn. apply IH. now apply handle_accounted.
Qed.

Lemma unsettled_promise (p : nat) (tr : list Event) :
  Forall continuation_call tr -> ~ In p (settled tr) ->
  List.filter (settles_promise p) tr = [].
Proof.
  induction tr as [|e tr IH]; intros Hc Hnot; [reflexivity|].
  apply Forall_cons in Hc as [He Hc].
  destruct e as [req|data|callee arg|c]; cbn in *; auto.
  destruct He as [q [->| ->]]; cbn in *;
    (case_bool_decide as Hq; [exfalso; apply Hnot; left; exact Hq|]);
    apply IH; auto.
Qed.

Lemma settled_once (p : nat) (tr : list Event) :
  Forall continuation_call tr -> NoDup (settled tr) ->
  length (List.filter (settles_promise p) tr) <= 1.
Proof.
  induction tr as [|e tr IH]; intros Hc Hnd; [cbn; lia|].
  apply Forall_cons in Hc as [He Hc].
  destruct e as [req|data|callee arg|c]; cbn in *; auto.
  apply NoDup_cons in Hnd as [Hnew Hnd].
  destruct He as [q [->| ->]]; cbn in *;
    (case_bool_decide as Hq;
     [subst q; cbn; rewrite unsettled_promise; [cbn; lia | exact Hc |];
      intros Hin; apply Hnew; apply list_elem_of_In; exact Hin
     |apply IH; auto]).
Qed.

(** X18.  Over any run from the initial state, no promise has a
    continuation called twice: it is resolved once, or rejected once, or
    never settled; and the continuations called are those of promises
    that stub calls made. *)
Theorem promises_settle_at_most_once (inputs : list Input) (input : list ascii)
    (p : nat) :
  let st := run host inputs (initial input) in
  length (List.filter (settles_promise p) (trace st)) <= 1 /\
  (List.filter (settles_promise p) (trace st) <> [] -> p < js_promises st).
Proof.
  cbn zeta.
  assert (H0 : accounted (initial input)).
  { unfold accounted, tidy, live, pending_ids. cbn. rewrite map_to_list_empty. cbn.
    repeat split; try constructor. intros k v H. rewrite lookup_empty in H.
    discriminate. }
  destruct (run_accounted inputs _ H0) as ((_ & _ & Hcalls) & Hnd & Hlt).
  unfold live in Hnd, Hlt.
  apply NoDup_app in Hnd as (_ & _ & Hnd). apply NoDup_app in Hnd as (_ & _ & Hnd).
  apply Forall_app in Hlt as [_ Hlt]. apply Forall_app in Hlt as [_ Hlt].
  split; [now apply settled_once|]. intros Hsome.
  destruct (decide (p ∈ settled (trace (run host inputs (initial input)))))
    as [Hin|Hnot].
  - rewrite Forall_forall in Hlt. apply Hlt. exact Hin.
  - destruct Hsome. apply unsettled_promise; [exact Hcalls|].
    intros Hin. apply Hnot. apply list_elem_of_In. exact Hin.
Qed.

End Settlement.

Section Separation.

Variable host : Host.

Lemma sync_call_is_sync_access (context : JSCContext) (message : string)
    (st : Bridge) :
  sync_access context st (snd (send_ipc_message_sync host message st)).
Proof.
  unfold sync_access, send_ipc_message_sync, connect_sync_ipc,
    g_output_stream_write_all.
  assert (Hnone : exists tr : list Event, trace st = trace st ++ tr /\ length tr <= 1 /\
                    forall e, In e tr -> exists data, e = SyncWritten data).
  { exists []. split; [now rewrite app_nil_r|]. split; [cbn; lia|]. intros e []. }
  destruct (sync_connection st); cbn;
    [|destruct (connect_ok host (connect_attempts st)); cbn];
    try (destruct (write_ok host (write_attempts st)); cbn);
    try (destruct (read_until_newline (sync_input st) "") as [r i]; cbn);
    repeat split; auto;
    (eexists; split; [reflexivity|]; split; [cbn; lia|]);
    intros e [<-|[]]; eauto.
Qed.

(** X19.  Field access bypasses the async queue: a field read or write
    leaves the in-flight flag, the queue, the started reads and the
    correlation table as they were, calls no continuation, and writes at
    most one line, on the sync socket; the only context whose pending
    exception it may change is the one of the access (a read whose
    result the [JSON.parse] of the context rejects, a write of a value
    of the wrong kind). *)
Theorem field_access_bypasses_queue (data : FieldUserData) (value : JSCValue)
    (context : JSCContext) (st : Bridge) :
  sync_access context st (snd (field_getter_callback_typed host data context st)) /\
  sync_access context st (field_setter_callback host value data context st).
Proof.
  split.
  - unfold field_getter_callback_typed.
    pose proof (sync_call_is_sync_access context
                  (json_generator_to_data host
                     (get_field_request (pretty (call_counter st)) (field_name data)))
                  (snd (next_call_id st))) as Hsync.
    destruct (send_ipc_message_sync host
                (json_generator_to_data host
                   (get_field_request (pretty (call_counter st)) (field_name data)))
                (snd (next_call_id st))) as [response st1] eqn:Hsend.
    rewrite (get_field_value_unfold host (field_name data) context st st1 response Hsend).
    cbn [snd] in Hsync. change (sync_access context st st1) in Hsync.
    assert (Hparse : forall text,
               sync_access context st (snd (call_json_parse host context text st1))).
    { intros text. unfold call_json_parse.
      destruct (JSON_parse host text) as [v|message]; [exact Hsync|].
      destruct Hsync as (H1 & H2 & H3 & H4 & H5 & H6). cbn.
      repeat split; auto. intros c Hc. cbn. rewrite lookup_insert_ne by congruence.
      now apply H6. }
    destruct response as [line|]; [|exact Hsync].
    destruct (json_parser_load_from_data host line) as [root|]; [|exact Hsync].
    destruct (json_object_get_member (json_node_get_object root) "result")
      as [node|]; [|exact Hsync].
    destruct node as [|v|elements|members]; try exact Hsync; try apply Hparse.
    destruct v; exact Hsync.
  - unfold field_setter_callback.
    destruct (type_valid (field_type data) value); cbn [negb].
    + rewrite set_field_value_is_one_call.
      apply (sync_call_is_sync_access context _ (snd (next_call_id st))).
    + unfold jsc_context_throw_exception, sync_access. cbn. repeat split; auto.
      * exists []. split; [now rewrite app_nil_r|]. split; [cbn; lia|]. intros e [].
      * intros c Hc. now rewrite lookup_insert_ne by congruence.
Qed.






End Separation.

(** * The further properties on the scenarios *)
Section FurtherScenarios.

Import Reference Scenario Fixtures.

Lemma no_newline_ab : no_newline (list_ascii_of_string "ab").
Proof. repeat constructor; discriminate. Defined.

Lemma no_newline_cd : no_newline (list_ascii_of_string "cd").
Proof. repeat constructor; discriminate. Defined.

Lemma read_until_newline_frames_witness :
  read_until_newline (nul_line ++ newline :: list_ascii_of_string "cd") ""
    = (Some ("" +:+ string_of_list_ascii nul_line), list_ascii_of_string "cd") /\
  read_until_newline nul_line "" = (None, []) /\
  (no_nul nul_line ->
   g_string_free (string_of_list_ascii nul_line) = string_of_list_ascii nul_line) /\
  (forall head tail, nul_line = head ++ nul :: tail -> no_nul head ->
   g_string_free (string_of_list_ascii nul_line) = string_of_list_ascii head).
Proof.
  apply (read_until_newline_frames nul_line (list_ascii_of_string "cd") "").
  repeat constructor; discriminate.
Defined.

Lemma sync_calls_read_their_own_lines_witness :
  exists r1 r2 st1 st2,
    send_ipc_message_sync backend "first" (initial two_lines) = (Some r1, st1) /\
    send_ipc_message_sync backend "second" st1 = (Some r2, st2) /\
    (no_nul (list_ascii_of_string "ab") ->
     r1 = string_of_list_ascii (list_ascii_of_string "ab")) /\
    (no_nul (list_ascii_of_string "cd") ->
     r2 = string_of_list_ascii (list_ascii_of_string "cd")) /\
    (forall head tail, list_ascii_of_string "ab" = head ++ nul :: tail -> no_nul head ->
       r1 = string_of_list_ascii head) /\
    (forall head tail, list_ascii_of_string "cd" = head ++ nul :: tail -> no_nul head ->
       r2 = string_of_list_ascii head) /\
    sync_input st2 = [] /\
    connect_attempts st2 <= S (connect_attempts (initial two_lines)) /\
    trace st2 = trace (initial two_lines)
                ++ [SyncWritten ("first" +:+ String "010"%char "");
                    SyncWritten ("second" +:+ String "010"%char "")].
Proof.
  apply (sync_calls_read_their_own_lines backend "first" "second"
           (list_ascii_of_string "ab") (list_ascii_of_string "cd") []
           (initial two_lines) (fun _ => eq_refl) (fun _ => eq_refl) eq_refl
           no_newline_ab no_newline_cd).
Defined.

(** A line with a NUL byte in it: the caller gets the bytes before it. *)
Example response_is_cut_at_nul :
  fst (send_ipc_message_sync backend "first"
         (initial (nul_line ++ newline :: list_ascii_of_string "cd")))
  = Some "ab".
Proof. vm_compute. reflexivity. Qed.

Lemma sync_call_fails_without_channel_witness :
  exists st',
    send_ipc_message_sync unreachable "first" (initial two_lines) = (None, st') /\
    sync_input st' = sync_input (initial two_lines) /\
    trace st' = trace (initial two_lines) /\
    connect_attempts st' <= S (connect_attempts (initial two_lines)) /\
    write_attempts st' <= S (write_attempts (initial two_lines)) /\
    (sync_connection (initial two_lines) = false ->
     connect_ok unreachable (connect_attempts (initial two_lines)) = false ->
     sync_connection st' = false /\
     write_attempts st' = write_attempts (initial two_lines)).
Proof.
  apply (sync_call_fails_without_channel unreachable "first" (initial two_lines)).
  reflexivity.
Defined.

Lemma call_ids_repeat_after_2_32_witness :
  fst (next_call_id (skip_ids 5 (run backend [CallStub "Greet" [] 1] (initial []))))
  <> fst (next_call_id (run backend [CallStub "Greet" [] 1] (initial []))).
Proof.
  apply (proj1 (proj2 (call_ids_repeat_after_2_32 backend [CallStub "Greet" [] 1] [] 5))).
  split; reflexivity.
Defined.

Lemma requests_queue_behind_the_one_in_flight_witness :
  enqueue_all backend [request 1 "1"; request 2 "2"]
    (enqueue backend (request 0 "0") (initial []))
  = set_async_queue
      (async_queue (enqueue backend (request 0 "0") (initial []))
       ++ [request 1 "1"; request 2 "2"])
      (enqueue backend (request 0 "0") (initial [])).
Proof.
  apply (requests_queue_behind_the_one_in_flight backend
           [request 1 "1"; request 2 "2"]
           (enqueue backend (request 0 "0") (initial []))).
  vm_compute. reflexivity.
Defined.

Lemma drain_retries_connect_per_request_witness :
  connect_attempts (start_next_async_request unreachable two_queued)
    = connect_attempts two_queued + length (async_queue two_queued) /\
  write_attempts (start_next_async_request unreachable two_queued)
    = write_attempts two_queued /\
  async_connection (start_next_async_request unreachable two_queued) = false.
Proof.
  apply (drain_retries_connect_per_request unreachable two_queued);
    [reflexivity | reflexivity | intros n; reflexivity].
Defined.

Lemma complex_field_is_sent_as_null_witness :
  trace (field_setter_callback backend (JSObject [("debug", JSBoolean true)])
           config_field 1 (initial []))
  = trace (initial [])
    ++ [SyncWritten
          (render
             (JsonNodeObject
                [ ("id", JsonNodeValue (GString (pretty (call_counter (initial [])))));
                  ("method", JsonNodeValue (GString "__setField"));
                  ("params", JsonNodeArray [JsonNodeValue (GString "Config");
                                            JsonNodeNull]) ])
           +:+ String "010"%char "")].
Proof.
  apply (complex_field_is_sent_as_null backend (JSObject [("debug", JSBoolean true)])
           config_field 1 (initial [])).
  - split; [discriminate|]. split; [reflexivity | discriminate].
  - reflexivity.
  - reflexivity.
Defined.

Lemma field_read_without_result_is_undefined_witness :
  get_field_value unreachable "Count" 1 (initial [])
    = (JSUndefined,
       snd (send_ipc_message_sync unreachable
              (render (get_field_request "0" "Count"))
              (snd (next_call_id (initial []))))) /\
  js_exception
    (snd (send_ipc_message_sync unreachable
            (render (get_field_request "0" "Count"))
            (snd (next_call_id (initial []))))) = js_exception (initial []).
Proof.
  apply (field_read_without_result_is_undefined unreachable "Count" 1 (initial []) _ None).
  - vm_compute. reflexivity.
  - exact I.
Defined.

Lemma field_reads_are_not_cached_witness :
  trace (snd (get_field_value backend "Count" 1
                (snd (get_field_value backend "Count" 1 (initial [])))))
  = trace (initial [])
    ++ [SyncWritten (render (get_field_request (pretty (call_counter (initial [])))
                               "Count") +:+ String "010"%char "");
        SyncWritten (render (get_field_request
                               (pretty ((call_counter (initial []) + 1) mod 2 ^ 32)%N)
                               "Count") +:+ String "010"%char "")].
Proof.
  apply (field_reads_are_not_cached backend "Count" 1 (initial [])
           (fun _ => eq_refl) (fun _ => eq_refl)).
Defined.

Lemma strux_stub_captures_qualified_name_witness :
  In (1, ["strux"; "boot"; "Reboot"], MethodStub "strux.boot.Reboot")
     (js_installed (inject_schema 1 strux_schema (initial []))).
Proof.
  apply (strux_stub_captures_qualified_name 1 strux_schema (initial []) "boot"
           strux_member boot_namespace (JsonNodeObject [("name", text "Reboot")])
           boot_methods).
  - reflexivity.
  - left. reflexivity.
  - reflexivity.
  - left. reflexivity.
Defined.

Lemma field_accessor_is_installed_witness :
  In (1, ["go"; "main"; "App"; "Count"], FieldAccessor "Count" "int32")
     (js_installed (inject_schema 1 schema (initial []))).
Proof.
  apply (field_accessor_is_installed 1 schema (initial []) "main" "App"
           main_package app_struct
           (JsonNodeObject [("name", text "Count"); ("type", text "int32")])
           app_fields).
  - left. reflexivity.
  - left. reflexivity.
  - reflexivity.
  - left. reflexivity.
Defined.

Lemma bindings_stay_under_go_and_strux_witness :
  (forall c path, outside_proxies 1 c path ->
     lookup_property c path (inject_bindings backend 1 (initial (line schema_response)))
       = lookup_property c path (initial (line schema_response))) /\
  call_counter (inject_bindings backend 1 (initial (line schema_response)))
    = call_counter (initial (line schema_response)).
Proof.
  apply (bindings_stay_under_go_and_strux backend 1 (initial (line schema_response))).
  vm_compute. split; [reflexivity | repeat constructor].
Defined.

(** A second schema installed in the same context: the new [go] object
    takes the stubs under the old one out of the graph. *)
Example replaced_object_hides_old_stubs :
  let st1 := inject_schema 1 schema (initial []) in
  let st2 := inject_schema 1 strux_schema st1 in
  lookup_property 1 greet_path st1 = Some (MethodStub "Greet") /\
  lookup_property 1 greet_path st2 = None /\
  lookup_property 1 ["go"; "strux"; "boot"; "Reboot"] st2 = Some (MethodStub "Reboot") /\
  lookup_property 1 ["strux"; "boot"; "Reboot"] st2
    = Some (MethodStub "strux.boot.Reboot") /\
  lookup_property 2 ["go"] st2 = None.
Proof. vm_compute. repeat split. Qed.

Lemma reply_after_reset_is_dropped_witness :
  let s := set_async_reads [{| read_call_id := "1" |}]
             (run backend [CallStub "Greet" [] 1; WindowCleared 1;
                           CallStub "Greet" [] 1; CallStub "Greet" [] 1] (initial [])) in
  let s' := async_read_callback backend {| read_call_id := "0" |}
              (ReadLine (render result_42)) s in
  async_inflight s' = true /\ async_queue s' = [] /\
  async_reads s' = async_reads s ++ [{| read_call_id := req_call_id (request 2 "2") |}] /\
  trace s' = trace s ++ [AsyncWritten (request 2 "2")].
Proof.
  apply (proj2 (proj2 (reply_after_reset_is_dropped backend 1 (initial [])))
           {| read_call_id := "0" |} (render result_42) _ (request 2 "2") []);
    vm_compute; reflexivity.
Defined.

Lemma promises_settle_at_most_once_witness :
  0 < js_promises
        (run backend [CallStub "Greet" [] 1; ReadDone (ReadLine (render result_42))]
           (initial [])).
Proof.
  apply (proj2 (promises_settle_at_most_once backend
                  [CallStub "Greet" [] 1; ReadDone (ReadLine (render result_42))] [] 0)).
  vm_compute. discriminate.
Defined.

Lemma bindings_need_a_schema_witness :
  inject_bindings unreachable 1 (initial [])
    = snd (send_ipc_message_sync unreachable (render get_bindings_request) (initial [])) /\
  js_installed
    (snd (send_ipc_message_sync unreachable (render get_bindings_request) (initial [])))
    = js_installed (initial []).
Proof.
  apply (bindings_need_a_schema unreachable 1 (initial []) _ None).
  - vm_compute. reflexivity.
  - exact I.
Defined.

(** The reserved member is walked by the package loop too: its method
    is also installed under [go], there with the short name. *)
Example strux_method_is_installed_twice :
  js_installed (inject_schema 1 strux_schema (initial []))
  = [ (1, ["go"], ProxyObject);
      (1, ["go"; "strux"], ProxyObject);
      (1, ["go"; "strux"; "boot"], ProxyObject);
      (1, ["go"; "strux"; "boot"; "Reboot"], MethodStub "Reboot");
      (1, ["strux"], ProxyObject);
      (1, ["strux"; "boot"], ProxyObject);
      (1, ["strux"; "boot"; "Reboot"], MethodStub "strux.boot.Reboot") ].
Proof. vm_compute. reflexivity. Qed.

End FurtherScenarios.
